(** * The TinyURL reconciliation job (update.py and update-tinyurl/update.py)

    A shallow embedding of the two entry points of the repository and of
    the Python values, exceptions and network calls they work with.  The
    program is modelled in a small state-and-exception monad whose state is
    the chronological trace of everything the job did: the requests it
    issued, the pacing delays it waited for and the lines it logged.  The
    network is an oracle that answers each request from the history of the
    effects performed so far. *)

From Stdlib Require Import String List ZArith Bool Lia.
Import ListNotations.
Open Scope string_scope.

Local Set Warnings "-register-all".

(** ** Python values, as decoded from JSON

    Numbers are the integers; strings are sequences of characters. *)

Module Py.

Inductive pyval : Type :=
| PNone
| PBool (b : bool)
| PInt (z : Z)
| PStr (s : string)
| PList (l : list pyval)
| PDict (d : list (string * pyval)).

(** An exception, as [except Exception] catches it: an instance of
    [Exception], of which the job only uses [str(e)], its message.
    (Interrupts and task cancellation, which are not instances of
    [Exception], are outside the model.) *)
Inductive exn : Type := Exception (msg : string).

Definition str_exn (e : exn) : string :=
  match e with Exception msg => msg end.

(** A Python expression either raises or yields a value. *)
Definition result (A : Type) : Type := (exn + A)%type.

Definition type_name (o : pyval) : string :=
  match o with
  | PNone => "NoneType"
  | PBool _ => "bool"
  | PInt _ => "int"
  | PStr _ => "str"
  | PList _ => "list"
  | PDict _ => "dict"
  end.

(** [bool(o)]: what [not o] tests. *)
Definition truthy (o : pyval) : bool :=
  match o with
  | PNone => false
  | PBool b => b
  | PInt z => negb (z =? 0)%Z
  | PStr s => negb (s =? "")
  | PList l => match l with [] => false | _ => true end
  | PDict d => match d with [] => false | _ => true end
  end.

Fixpoint dict_lookup (k : string) (d : list (string * pyval)) : option pyval :=
  match d with
  | [] => None
  | (k', v) :: d' => if k =? k' then Some v else dict_lookup k d'
  end.

(** [d.get(k, default)] on the entries of a dict. *)
Definition dict_get (k : string) (d : list (string * pyval)) (default : pyval) : pyval :=
  match dict_lookup k d with
  | Some v => v
  | None => default
  end.

(** [o.get(k, default)]; only a dict has the method. *)
Definition get (o : pyval) (k : string) (default : pyval) : result pyval :=
  match o with
  | PDict d => inr (dict_get k d default)
  | _ =>
      inl (Exception ("'" ++ type_name o ++ "' object has no attribute 'get'"))
  end.

(** [len(o)] *)
Definition len (o : pyval) : result nat :=
  match o with
  | PStr s => inr (String.length s)
  | PList l => inr (List.length l)
  | PDict d => inr (List.length d)
  | _ => inl (Exception ("object of type '" ++ type_name o ++ "' has no len()"))
  end.

(** The items a [for] loop over [o] visits. *)
Definition iter (o : pyval) : result (list pyval) :=
  match o with
  | PStr s => inr (map (fun c => PStr (String c EmptyString)) (list_ascii_of_string s))
  | PList l => inr l
  | PDict d => inr (map (fun kv => PStr (fst kv)) d)
  | _ => inl (Exception ("'" ++ type_name o ++ "' object is not iterable"))
  end.

(** [not s] for the result of [os.getenv]: [None] and [''] are falsy. *)
Definition env_truthy (s : option string) : bool :=
  match s with
  | None => false
  | Some s => negb (s =? "")
  end.

(** An [os.getenv] result inside an f-string. *)
Definition fmt_env (s : option string) : string :=
  match s with
  | None => "None"
  | Some s => s
  end.

Definition env_val (s : option string) : pyval :=
  match s with
  | None => PNone
  | Some s => PStr s
  end.

End Py.
Import Py.

(** ** Configuration read from the environment *)

Record config : Type := {
  AIRTABLE_BASE_ID : string;
  AIRTABLE_TABLE_NAME : string;
  AIRTABLE_VIEW_NAME : string;
  AIRTABLE_API_KEY : option string;
  TINYURL_API_TOKEN : option string
}.

Definition getenv (environ : string -> option string) (k default : string) : string :=
  match environ k with
  | Some s => s
  | None => default
  end.

Definition load_config (environ : string -> option string) : config := {|
  AIRTABLE_BASE_ID := getenv environ "AIRTABLE_BASE_ID" "appYaT73RTzmoKIrq";
  AIRTABLE_TABLE_NAME := getenv environ "AIRTABLE_TABLE_NAME" "Applications";
  AIRTABLE_VIEW_NAME := getenv environ "AIRTABLE_VIEW_NAME" "Grid view";
  AIRTABLE_API_KEY := environ "AIRTABLE_API_KEY";
  TINYURL_API_TOKEN := environ "TINYURL_API_TOKEN"
|}.

(** The two entry points differ in the field names they read and in how much
    they log (and, with the logging, in which response bodies they read). *)
Inductive script : Type :=
| UpdatePy          (* update.py *)
| UpdateTinyurl.    (* update-tinyurl/update.py *)

Definition name_field (v : script) : string :=
  match v with UpdatePy => "Name [Primary]" | UpdateTinyurl => "Name" end.

Definition url_field (v : script) : string :=
  match v with UpdatePy => "url-to-send" | UpdateTinyurl => "big-url" end.

Definition verbose (v : script) : bool :=
  match v with UpdatePy => false | UpdateTinyurl => true end.

(** ** Requests, responses and the trace *)

Definition headers : Type := list (string * string).

Inductive request : Type :=
| GET (url : string) (hdrs : headers) (params : pyval)
| POST (url : string) (json : pyval) (hdrs : headers)
| PATCH (url : string) (json : pyval) (hdrs : headers).

(** An HTTP response: its status, and what [await response.json()] and
    [await response.text()] give, each of which may raise. *)
Record response : Type := {
  status : Z;
  json : result pyval;
  text : result string
}.

Inductive level : Type := INFO | ERROR.

(** A log line is kept as its f-string template and the values put in it. *)
Inductive event : Type :=
| Log (lvl : level) (template : string) (args : list pyval)
| Call (req : request)
| Sleep (seconds : Z).

Definition trace : Type := list event.

Definition is_effect (e : event) : bool :=
  match e with
  | Log _ _ _ => false
  | _ => true
  end.

(** The effects of a run: its trace without the log lines. *)
Definition effects (t : trace) : list event := filter is_effect t.

(** The outside world: the reply to a request, given the effects so far.
    A reply is a response or an exception raised by the session call. *)
Definition network : Type := list event -> request -> result response.

(** ** The monad of the job *)

Definition M (A : Type) : Type := trace -> result A * trace.

Definition ret {A} (a : A) : M A := fun t => (inr a, t).

Definition bind {A B} (m : M A) (k : A -> M B) : M B :=
  fun t =>
    match m t with
    | (inr a, t') => k a t'
    | (inl e, t') => (inl e, t')
    end.

Notation "x <- m ;; k" := (bind m (fun x => k))
  (at level 61, m at next level, right associativity).
Notation "m ;; k" := (bind m (fun _ => k))
  (at level 61, right associativity).

(** A pure Python expression that may raise. *)
Definition lift {A} (r : result A) : M A := fun t => (r, t).

Definition emit (e : event) : M unit := fun t => (inr tt, (t ++ [e])%list).

(** [try: m  except Exception as e: h e] *)
Definition try_except {A} (m : M A) (h : exn -> M A) : M A :=
  fun t =>
    match m t with
    | (inr a, t') => (inr a, t')
    | (inl e, t') => h e t'
    end.

Definition when (b : bool) (m : M unit) : M unit :=
  if b then m else ret tt.

Definition logging_info (template : string) (args : list pyval) : M unit :=
  emit (Log INFO template args).

Definition logging_error (template : string) (args : list pyval) : M unit :=
  emit (Log ERROR template args).

Definition asyncio_sleep (seconds : Z) : M unit := emit (Sleep seconds).

Definition headers_val (h : headers) : pyval :=
  PDict (map (fun kv => (fst kv, PStr (snd kv))) h).

Section Job.

(** [str()], as an f-string applies it to a value.  It is left abstract;
    the two facts about it that matter, that it leaves a string as it is and
    gives "None" for [None], are premises of the theorems that need them. *)
Variable py_str : pyval -> string.

Variable v : script.
Variable cfg : config.
Variable net : network.

(** Issuing a request: it is recorded, and the network replies. *)
Definition session_request (req : request) : M response :=
  fun t => (net (effects t) req, (t ++ [Call req])%list).

Definition airtable_headers : headers :=
  [("Authorization", "Bearer " ++ fmt_env (AIRTABLE_API_KEY cfg));
   ("Content-Type", "application/json")].

Definition airtable_url : string :=
  "https://api.airtable.com/v0/" ++ AIRTABLE_BASE_ID cfg
  ++ "/" ++ AIRTABLE_TABLE_NAME cfg.

Definition fetch_params : pyval :=
  PDict [("view", PStr (AIRTABLE_VIEW_NAME cfg));
         ("fields", PList [PStr (name_field v); PStr "rec-id"; PStr (url_field v)])].

Definition fetch_request : request :=
  GET airtable_url airtable_headers fetch_params.

Definition fetch_airtable_records : M pyval :=
  let url := airtable_url in
  let hdrs := airtable_headers in
  let params := fetch_params in
  when (verbose v)
    (logging_info "Fetching from URL: {}" [PStr url] ;;
     logging_info "Using base ID: {}" [PStr (AIRTABLE_BASE_ID cfg)] ;;
     logging_info "Using table: {}" [PStr (AIRTABLE_TABLE_NAME cfg)] ;;
     logging_info "Using view: {}" [PStr (AIRTABLE_VIEW_NAME cfg)]) ;;
  response <- session_request fetch_request ;;
  if (status response =? 200)%Z then
    data <- lift (json response) ;;
    lift (get data "records" (PList []))
  else
    (if verbose v then
       response_text <- lift (text response) ;;
       logging_error "Failed to fetch Airtable records: {}" [PInt (status response)] ;;
       logging_error "Response body: {}" [PStr response_text] ;;
       logging_error "Request URL: {}" [PStr url] ;;
       logging_error "Request headers: {}" [headers_val hdrs] ;;
       logging_error "Request params: {}" [params]
     else
       logging_error "Failed to fetch Airtable records: {}" [PInt (status response)]) ;;
    ret (PList []).

Definition tinyurl_payload (url alias : pyval) : pyval :=
  PDict [("url", url);
         ("domain", PStr "tinyurl.com");
         ("alias", PStr ("kb-" ++ py_str alias))].

Definition tinyurl_request (url alias : pyval) : request :=
  POST ("https://api.tinyurl.com/create?api_token=" ++ fmt_env (TINYURL_API_TOKEN cfg))
       (tinyurl_payload url alias)
       [("Content-Type", "application/json")].

Definition create_tinyurl (url alias : pyval) : M bool :=
  let payload := tinyurl_payload url alias in
  when (verbose v)
    (logging_info "Creating TinyURL for {} with alias kb-{}" [url; alias]) ;;
  response <- session_request (tinyurl_request url alias) ;;
  if verbose v then
    if (status response =? 200)%Z then
      response_data <- lift (json response) ;;
      logging_info "TinyURL created successfully: {}" [response_data] ;;
      ret true
    else
      response_text <- lift (text response) ;;
      logging_error "TinyURL creation failed: {}" [PInt (status response)] ;;
      logging_error "Response body: {}" [PStr response_text] ;;
      logging_error "Request payload: {}" [payload] ;;
      ret false
  else
    ret (status response =? 200)%Z.

Definition script_request (record_id : pyval) (status_message : string) : request :=
  PATCH (airtable_url ++ "/" ++ py_str record_id)
        (PDict [("fields", PDict [("script", PStr status_message)])])
        airtable_headers.

Definition update_airtable_script_field
    (record_id : pyval) (status_message : string) : M bool :=
  when (verbose v)
    (logging_info "Updating record {} with status: {}" [record_id; PStr status_message]) ;;
  response <- session_request (script_request record_id status_message) ;;
  if verbose v then
    if (status response =? 200)%Z then
      logging_info "Successfully updated record {}" [record_id] ;;
      ret true
    else
      response_text <- lift (text response) ;;
      logging_error "Failed to update record {}: {}" [record_id; PInt (status response)] ;;
      logging_error "Response body: {}" [PStr response_text] ;;
      ret false
  else
    ret (status response =? 200)%Z.

Definition missing_message : string :=
  match v with
  | UpdatePy => "error - missing rec-id or url-to-send"
  | UpdateTinyurl => "error - missing rec-id or big-url"
  end.

(** The body of the loop of [main] for the record at index [i] of [n]. *)
Definition process_record (i n : nat) (record : pyval) : M unit :=
  fields <- lift (get record "fields" (PDict [])) ;;
  record_id <- lift (get record "id" PNone) ;;
  name <- lift (get fields (name_field v) (PStr "Unknown")) ;;
  rec_id <- lift (get fields "rec-id" PNone) ;;
  url_to_send <- lift (get fields (url_field v) PNone) ;;
  logging_info "Processing {}/{}: {}"
    [PInt (Z.of_nat i + 1); PInt (Z.of_nat n); name] ;;
  if negb (truthy rec_id) || negb (truthy url_to_send) then
    update_airtable_script_field record_id missing_message ;;
    ret tt
  else
    try_except
      (success <- create_tinyurl url_to_send rec_id ;;
       (if success : bool then
          update_airtable_script_field record_id "tinyurl valid" ;;
          logging_info "Successfully created TinyURL for {}" [name]
        else
          update_airtable_script_field record_id "error - tinyurl creation failed" ;;
          logging_error "TinyURL creation failed for {}" [name]) ;;
       asyncio_sleep 3)
      (fun e =>
         let error_msg := "error - " ++ str_exn e in
         update_airtable_script_field record_id error_msg ;;
         logging_error "Error processing {}: {}" [name; PStr (str_exn e)]).

(** [for i, record in enumerate(records)], from index [i]. *)
Fixpoint process_records (i n : nat) (records : list pyval) : M unit :=
  match records with
  | [] => ret tt
  | record :: rest =>
      process_record i n record ;;
      process_records (S i) n rest
  end.

Definition main : M unit :=
  logging_info "Starting TinyURL cron job" [] ;;
  if negb (env_truthy (AIRTABLE_API_KEY cfg)) then
    logging_error "AIRTABLE_API_KEY environment variable not set" []
  else
    when (verbose v)
      (n <- lift (len (env_val (AIRTABLE_API_KEY cfg))) ;;
       logging_info "AIRTABLE_API_KEY is set (length: {})" [PInt (Z.of_nat n)]) ;;
    if negb (env_truthy (TINYURL_API_TOKEN cfg)) then
      logging_error "TINYURL_API_TOKEN environment variable not set" []
    else
      when (verbose v)
        (n <- lift (len (env_val (TINYURL_API_TOKEN cfg))) ;;
         logging_info "TINYURL_API_TOKEN is set (length: {})" [PInt (Z.of_nat n)]) ;;
      records <- fetch_airtable_records ;;
      n <- lift (len records) ;;
      logging_info "Fetched {} records from Airtable" [PInt (Z.of_nat n)] ;;
      items <- lift (iter records) ;;
      process_records 0 n items ;;
      logging_info "Cron job completed" [].

(** A name for the second half of the loop body, what it does with the
    values it read from the record (lines 89 to 107 of update.py);
    [process_record_fields] below shows that [process_record] is this. *)
Definition reconcile (record_id name rec_id url_to_send : pyval) : M unit :=
  if negb (truthy rec_id) || negb (truthy url_to_send) then
    update_airtable_script_field record_id missing_message ;;
    ret tt
  else
    try_except
      (success <- create_tinyurl url_to_send rec_id ;;
       (if success : bool then
          update_airtable_script_field record_id "tinyurl valid" ;;
          logging_info "Successfully created TinyURL for {}" [name]
        else
          update_airtable_script_field record_id "error - tinyurl creation failed" ;;
          logging_error "TinyURL creation failed for {}" [name]) ;;
       asyncio_sleep 3)
      (fun e =>
         update_airtable_script_field record_id ("error - " ++ str_exn e) ;;
         logging_error "Error processing {}: {}" [name; PStr (str_exn e)]).

(** The run [out] of a record went through the [except] clause with [e],
    entered after the effects [hist]: the status write reporting [e] is its
    last effect, and [out] ends as that write does. *)
Definition faulted (out : result unit * trace) (record_id : pyval)
    (e : exn) (hist : list event) : Prop :=
  let error_msg := "error - " ++ str_exn e in
  fst out
  = match fst (update_airtable_script_field record_id error_msg hist) with
    | inl e' => inl e'
    | inr _ => inr tt
    end
  /\ effects (snd out) = (hist ++ [Call (script_request record_id error_msg)])%list.

End Job.

Arguments session_request net req t /.

Open Scope list_scope.

(** ** Records, and what is read off a trace *)

(** The record is a dict [d] whose ['fields'] (when it has any) is the dict [f]. *)
Definition record_fields (d f : list (string * pyval)) : Prop :=
  dict_get "fields" d (PDict []) = PDict f.

(** Both required fields are present and non-empty. *)
Definition has_required (v : script) (f : list (string * pyval)) : bool :=
  truthy (dict_get "rec-id" f PNone) && truthy (dict_get (url_field v) f PNone).

(** The status written after the alias creator returned [success]. *)
Definition outcome_status (success : bool) : string :=
  if success then "tinyurl valid" else "error - tinyurl creation failed".

(** The pacing delays of a trace, in time units. *)
Definition delays (t : trace) : list Z :=
  flat_map (fun e => match e with Sleep z => [z] | _ => [] end) t.

(** The URLs of the status writes of a trace, in the order they were made. *)
Definition written_urls (t : trace) : list string :=
  flat_map (fun e => match e with Call (PATCH url _ _) => [url] | _ => [] end) t.

(** The URL of the store entry of a record. *)
Definition record_url (py_str : pyval -> string) (cfg : config) (record : pyval) : string :=
  match record with
  | PDict d => (airtable_url cfg ++ "/" ++ py_str (dict_get "id" d PNone))%string
  | _ => ""%string
  end.

(** A record as the store sends it: a mapping whose ['fields'], when it has
    any, is a mapping. *)
Definition well_formed (record : pyval) : Prop :=
  exists d f, record = PDict d /\ record_fields d f.

(** A field mapping without its display name. *)
Definition strip_fields (v : script) (fields : pyval) : pyval :=
  match fields with
  | PDict f => PDict (filter (fun kv => negb (fst kv =? name_field v)%string) f)
  | _ => fields
  end.

(** A record without the display name in its fields.  Two records differ in
    the name only when they are the same once stripped. *)
Definition strip_name (v : script) (record : pyval) : pyval :=
  match record with
  | PDict d =>
      PDict (map (fun kv => if (fst kv =? "fields")%string
                            then (fst kv, strip_fields v (snd kv))
                            else kv) d)
  | _ => record
  end.

(** ** Computations that differ in what they log only

    [sim m1 m2]: run after the same effects, [m1] and [m2] end the same way
    and perform the same effects, whatever was logged before and whatever
    they log themselves. *)

Definition sim {A} (m1 m2 : M A) : Prop :=
  forall t1 t2, effects t1 = effects t2 ->
    fst (m1 t1) = fst (m2 t2) /\ effects (snd (m1 t1)) = effects (snd (m2 t2)).

(** ** Sample worlds, for running the job *)

(** An instance of [str()] for running the job on concrete records: it is
    Python's on [None], on booleans and on strings, the only values the
    examples below format. *)
Definition str_atom (o : pyval) : string :=
  match o with
  | PNone => "None"
  | PBool true => "True"
  | PBool false => "False"
  | PStr s => s
  | _ => ("<" ++ type_name o ++ ">")%string
  end.

Definition environ0 (k : string) : option string :=
  if (k =? "AIRTABLE_API_KEY")%string then Some "key"
  else if (k =? "TINYURL_API_TOKEN")%string then Some "token"
  else None.

Definition cfg0 : config := load_config environ0.

(** A reply with status 200 and the JSON body [body]. *)
Definition ok (body : pyval) : result response :=
  inr {| status := 200; json := inr body; text := inr ""%string |}.

(** A reply with an error status and a plain-text body. *)
Definition failed (code : Z) (body : string) : result response :=
  inr {| status := code;
         json := inl (Exception "Attempt to decode JSON with unexpected mimetype");
         text := inr body |}.

(** The session call raises. *)
Definition down (msg : string) : result response := inl (Exception msg).

(** A world that answers by the kind of request only. *)
Definition world (get post patch : result response) : network :=
  fun _ req =>
    match req with
    | GET _ _ _ => get
    | POST _ _ _ => post
    | PATCH _ _ _ => patch
    end.

Definition fields_a : list (string * pyval) :=
  [("Name [Primary]", PStr "A"); ("rec-id", PStr "x1"); ("url-to-send", PStr "http://a")].

Definition fields_b : list (string * pyval) :=
  [("Name [Primary]", PStr "B"); ("rec-id", PStr ""); ("url-to-send", PStr "http://b")].

Definition fields_c : list (string * pyval) :=
  [("Name [Primary]", PStr "C"); ("rec-id", PStr "x3"); ("url-to-send", PStr "http://c")].

Definition record_a : list (string * pyval) :=
  [("id", PStr "r1"); ("fields", PDict fields_a)].

Definition record_b : list (string * pyval) :=
  [("id", PStr "r2"); ("fields", PDict fields_b)].

Definition record_c : list (string * pyval) :=
  [("id", PStr "r3"); ("fields", PDict fields_c)].

Definition fields_t : list (string * pyval) :=
  [("Name", PStr "T"); ("rec-id", PStr "k9"); ("big-url", PStr "http://t")].

Definition record_t : list (string * pyval) :=
  [("id", PStr "r9"); ("fields", PDict fields_t)].

Definition batch (records : list pyval) : pyval :=
  PDict [("records", PList records)].

(** ** What a run may do *)

(** The alias-creation requests of a trace, in the order they were made. *)
Definition alias_requests (t : trace) : list request :=
  flat_map (fun e => match e with
                     | Call (POST url body hdrs) => [POST url body hdrs]
                     | _ => []
                     end) t.

(** The alias-creation request the loop makes for a record: one for a
    mapping whose fields hold both required values, none otherwise. *)
Definition alias_request_of (py_str : pyval -> string) (v : script) (cfg : config)
    (record : pyval) : list request :=
  match record with
  | PDict d =>
      match dict_get "fields" d (PDict []) with
      | PDict f =>
          if has_required v f
          then [tinyurl_request py_str cfg (dict_get (url_field v) f PNone)
                  (dict_get "rec-id" f PNone)]
          else []
      | _ => []
      end
  | _ => []
  end.

(** The four kinds of status the loop writes. *)
Definition status_message (v : script) (m : string) : Prop :=
  m = "tinyurl valid"%string
  \/ m = "error - tinyurl creation failed"%string
  \/ m = missing_message v
  \/ exists e, m = ("error - " ++ str_exn e)%string.

(** The effects the loop can have: the pacing delay, an alias creation for a
    non-empty target and slug, and a status write of one of the four kinds. *)
Definition loop_effect (py_str : pyval -> string) (v : script) (cfg : config)
    (e : event) : Prop :=
  match e with
  | Sleep z => z = 3%Z
  | Call (POST url body hdrs) =>
      exists url_to_send rec_id,
        truthy url_to_send = true /\ truthy rec_id = true
        /\ POST url body hdrs = tinyurl_request py_str cfg url_to_send rec_id
  | Call (PATCH url body hdrs) =>
      exists record_id m,
        PATCH url body hdrs = script_request py_str cfg record_id m
        /\ status_message v m
  | Call (GET _ _ _) => False
  | Log _ _ _ => False
  end.

(** The effects of one record: none when reading the record raised, the
    missing-field write, a completed attempt, or an attempt that ended in
    the [except] clause after one or two requests. *)
Definition record_effects (py_str : pyval -> string) (v : script) (cfg : config)
    (new : list event) : Prop :=
  new = []
  \/ (exists record_id,
        new = [Call (script_request py_str cfg record_id (missing_message v))])
  \/ (exists record_id url_to_send rec_id,
        truthy url_to_send = true /\ truthy rec_id = true
        /\ let post := Call (tinyurl_request py_str cfg url_to_send rec_id) in
           (exists success,
               new = [post;
                      Call (script_request py_str cfg record_id (outcome_status success));
                      Sleep 3])
           \/ (exists success e,
                  new = [post;
                         Call (script_request py_str cfg record_id (outcome_status success));
                         Call (script_request py_str cfg record_id
                                 ("error - " ++ str_exn e)%string)])
           \/ (exists e,
                  new = [post;
                         Call (script_request py_str cfg record_id
                                 ("error - " ++ str_exn e)%string)])).

(** * Properties *)

(** ** The trace only grows, and log lines are not effects *)

Lemma effects_app (t t' : trace) : effects (t ++ t') = effects t ++ effects t'.
Proof. unfold effects. apply filter_app. Qed.

Lemma effects_idem (t : trace) : effects (effects t) = effects t.
Proof.
  unfold effects. induction t as [|e t IH]; simpl; [reflexivity|].
  destruct (is_effect e) eqn:E; simpl; [rewrite E, IH|]; auto.
Qed.

Lemma effects_nil : effects [] = [].
Proof. reflexivity. Qed.

Lemma effects_cons_log lvl tpl args (t : trace) :
  effects (Log lvl tpl args :: t) = effects t.
Proof. reflexivity. Qed.

Lemma effects_cons_call req (t : trace) :
  effects (Call req :: t) = Call req :: effects t.
Proof. reflexivity. Qed.

Lemma effects_cons_sleep z (t : trace) :
  effects (Sleep z :: t) = Sleep z :: effects t.
Proof. reflexivity. Qed.

Lemma effects_log (t : trace) lvl tpl args :
  effects (t ++ [Log lvl tpl args]) = effects t.
Proof. rewrite effects_app. simpl. apply app_nil_r. Qed.

Lemma effects_sleep (t : trace) z :
  effects (t ++ [Sleep z]) = effects t ++ [Sleep z].
Proof. now rewrite effects_app. Qed.

Create Rewrite HintDb trace_db.
#[global] Hint Rewrite effects_app effects_nil effects_cons_log effects_cons_call
  effects_cons_sleep effects_idem app_nil_r : trace_db.
#[global] Hint Rewrite <- app_assoc : trace_db.

Ltac trace_simpl := repeat (autorewrite with trace_db; cbn [app]).

(** ** Computations that differ in what they log only *)

Lemma sim_ret {A} (a : A) : sim (ret a) (ret a).
Proof. intros t1 t2 H. simpl. auto. Qed.

Lemma sim_bind {A B} (m1 m2 : M A) (k1 k2 : A -> M B) :
  sim m1 m2 -> (forall a, sim (k1 a) (k2 a)) -> sim (bind m1 k1) (bind m2 k2).
Proof.
  intros Hm Hk t1 t2 H. unfold bind.
  destruct (Hm t1 t2 H) as [Hr Ht].
  destruct (m1 t1) as [[e1|a1] t1'], (m2 t2) as [[e2|a2] t2']; simpl in *;
    try discriminate.
  - split; [congruence | assumption].
  - injection Hr as ->. apply Hk. assumption.
Qed.

Lemma sim_try_except {A} (m1 m2 : M A) (h1 h2 : exn -> M A) :
  sim m1 m2 -> (forall e, sim (h1 e) (h2 e)) ->
  sim (try_except m1 h1) (try_except m2 h2).
Proof.
  intros Hm Hh t1 t2 H. unfold try_except.
  destruct (Hm t1 t2 H) as [Hr Ht].
  destruct (m1 t1) as [[e1|a1] t1'], (m2 t2) as [[e2|a2] t2']; simpl in *;
    try discriminate.
  - injection Hr as ->. apply Hh. assumption.
  - split; [congruence | assumption].
Qed.

Lemma sim_log lvl tpl args lvl' tpl' args' :
  sim (emit (Log lvl tpl args)) (emit (Log lvl' tpl' args')).
Proof.
  intros t1 t2 H. unfold emit. simpl. rewrite !effects_log. auto.
Qed.

Lemma sim_sleep z : sim (asyncio_sleep z) (asyncio_sleep z).
Proof.
  intros t1 t2 H. unfold asyncio_sleep, emit. simpl.
  rewrite !effects_sleep. split; congruence.
Qed.

(** ** The three network operations *)

Section Operations.

Variable py_str : pyval -> string.
Variable v : script.
Variable cfg : config.
Variable net : network.

Ltac run_ops :=
  unfold update_airtable_script_field, create_tinyurl,
    fetch_airtable_records, when, logging_info, logging_error,
    bind, emit, lift, ret; simpl.

Lemma update_effects record_id msg t :
  effects (snd (update_airtable_script_field py_str v cfg net record_id msg t))
  = effects t ++ [Call (script_request py_str cfg record_id msg)].
Proof.
  run_ops. destruct v; simpl; trace_simpl.
  - destruct (net _ _); simpl; now trace_simpl.
  - destruct (net _ _) as [e|r]; simpl; trace_simpl; [reflexivity|].
    destruct (status r =? 200)%Z; simpl; trace_simpl; [reflexivity|].
    destruct (text r); simpl; now trace_simpl.
Qed.

Lemma create_effects url alias t :
  effects (snd (create_tinyurl py_str v cfg net url alias t))
  = effects t ++ [Call (tinyurl_request py_str cfg url alias)].
Proof.
  run_ops. destruct v; simpl; trace_simpl.
  - destruct (net _ _); simpl; now trace_simpl.
  - destruct (net _ _) as [e|r]; simpl; trace_simpl; [reflexivity|].
    destruct (status r =? 200)%Z; simpl; trace_simpl.
    + destruct (json r); simpl; now trace_simpl.
    + destruct (text r); simpl; now trace_simpl.
Qed.

Lemma update_history record_id msg t :
  fst (update_airtable_script_field py_str v cfg net record_id msg t)
  = fst (update_airtable_script_field py_str v cfg net record_id msg (effects t)).
Proof.
  run_ops. destruct v; simpl; trace_simpl.
  - destruct (net _ _); reflexivity.
  - destruct (net _ _) as [e|r]; simpl; [reflexivity|].
    destruct (status r =? 200)%Z; simpl; [reflexivity|].
    destruct (text r); reflexivity.
Qed.

Lemma create_history url alias t :
  fst (create_tinyurl py_str v cfg net url alias t)
  = fst (create_tinyurl py_str v cfg net url alias (effects t)).
Proof.
  run_ops. destruct v; simpl; trace_simpl.
  - destruct (net _ _); reflexivity.
  - destruct (net _ _) as [e|r]; simpl; [reflexivity|].
    destruct (status r =? 200)%Z; simpl.
    + destruct (json r); reflexivity.
    + destruct (text r); reflexivity.
Qed.

End Operations.

(** ** One record *)

Section Record.

Variable py_str : pyval -> string.
Variable v : script.
Variable cfg : config.
Variable net : network.

Lemma process_record_fields i n d f t :
  record_fields d f ->
  process_record py_str v cfg net i n (PDict d) t
  = reconcile py_str v cfg net (dict_get "id" d PNone)
      (dict_get (name_field v) f (PStr "Unknown"))
      (dict_get "rec-id" f PNone)
      (dict_get (url_field v) f PNone)
      (t ++ [Log INFO "Processing {}/{}: {}"
               [PInt (Z.of_nat i + 1); PInt (Z.of_nat n);
                dict_get (name_field v) f (PStr "Unknown")]]).
Proof.
  unfold record_fields. intros Hf.
  unfold process_record. cbn [get]. rewrite Hf. reflexivity.
Qed.

(** Proof steps: split the next status write (alias creation) of the run
    named by the hypothesis [Hout] into how it ends and the trace it leaves. *)
Ltac step_update Hout :=
  match type of Hout with
  | context [update_airtable_script_field ?s ?sc ?c ?n ?rid ?msg ?tr] =>
      let Hh := fresh "Hh" in
      let He := fresh "He" in
      let e := fresh "e" in
      let b := fresh "b" in
      let t' := fresh "t" in
      pose proof (update_history s sc c n rid msg tr) as Hh;
      pose proof (update_effects s sc c n rid msg tr) as He;
      destruct (update_airtable_script_field s sc c n rid msg tr) as [[e|b] t'];
      cbn [fst snd] in Hh, He;
      repeat match goal with H : effects _ = _ |- _ => rewrite H in Hh end;
      trace_simpl; autorewrite with trace_db in Hh, He; cbn [app] in Hh, He;
      try rewrite <- Hh
  end.

Ltac step_create Hout :=
  match type of Hout with
  | context [create_tinyurl ?s ?sc ?c ?n ?url ?alias ?tr] =>
      let Hh := fresh "Hh" in
      let He := fresh "He" in
      let e := fresh "e" in
      let b := fresh "b" in
      let t' := fresh "t" in
      pose proof (create_history s sc c n url alias tr) as Hh;
      pose proof (create_effects s sc c n url alias tr) as He;
      destruct (create_tinyurl s sc c n url alias tr) as [[e|b] t'];
      cbn [fst snd] in Hh, He;
      trace_simpl; autorewrite with trace_db in Hh, He; cbn [app] in Hh, He;
      try rewrite <- Hh
  end.

Ltac finish_run Hout :=
  unfold bind, logging_info, logging_error, asyncio_sleep, emit, ret in Hout;
  subst; cbn [fst snd]; trace_simpl;
  repeat match goal with H : effects _ = _ |- _ => rewrite H end;
  trace_simpl; auto.

Lemma process_invalid_record i n d f t :
  record_fields d f ->
  has_required v f = false ->
  let out := process_record py_str v cfg net i n (PDict d) t in
  let record_id := dict_get "id" d PNone in
  fst out
  = match fst (update_airtable_script_field py_str v cfg net record_id
                 (missing_message v) (effects t)) with
    | inl e => inl e
    | inr _ => inr tt
    end
  /\ effects (snd out)
     = effects t ++ [Call (script_request py_str cfg record_id (missing_message v))].
Proof.
  unfold has_required. intros Hf Hreq. cbn zeta.
  rewrite (process_record_fields _ _ _ _ _ Hf).
  remember (reconcile _ _ _ _ _ _ _ _ _) as out eqn:Hout.
  unfold reconcile in Hout. rewrite <- negb_andb, Hreq in Hout. cbn [negb] in Hout.
  unfold bind at 1 in Hout.
  step_update Hout; finish_run Hout.
Qed.

Lemma process_valid_record i n d f t :
  record_fields d f ->
  has_required v f = true ->
  let out := process_record py_str v cfg net i n (PDict d) t in
  let record_id := dict_get "id" d PNone in
  let rec_id := dict_get "rec-id" f PNone in
  let url_to_send := dict_get (url_field v) f PNone in
  let post := Call (tinyurl_request py_str cfg url_to_send rec_id) in
  match fst (create_tinyurl py_str v cfg net url_to_send rec_id (effects t)) with
  | inl e => faulted py_str v cfg net out record_id e (effects t ++ [post])
  | inr success =>
      let write := Call (script_request py_str cfg record_id (outcome_status success)) in
      match fst (update_airtable_script_field py_str v cfg net record_id
                   (outcome_status success) (effects t ++ [post])) with
      | inl e => faulted py_str v cfg net out record_id e (effects t ++ [post; write])
      | inr _ =>
          fst out = inr tt
          /\ effects (snd out) = effects t ++ [post; write; Sleep 3]
      end
  end.
Proof.
  unfold has_required. intros Hf Hreq. cbn zeta.
  rewrite (process_record_fields _ _ _ _ _ Hf).
  remember (reconcile _ _ _ _ _ _ _ _ _) as out eqn:Hout.
  unfold reconcile in Hout. rewrite <- negb_andb, Hreq in Hout. cbn [negb] in Hout.
  unfold try_except, faulted in *.
  unfold bind at 1 in Hout. step_create Hout.
  - (* the alias creator raised *)
    unfold bind at 1 in Hout. step_update Hout; finish_run Hout.
  - destruct b; cbn [outcome_status];
      unfold bind at 1 in Hout; unfold bind at 1 in Hout;
      step_update Hout.
    all: try (unfold bind at 1 in Hout; step_update Hout).
    all: finish_run Hout.
Qed.

End Record.

(** ** The loop *)

Section Loop.

Variable py_str : pyval -> string.
Variable v : script.
Variable cfg : config.
Variable net : network.

Lemma process_records_cons i n record rest t :
  process_records py_str v cfg net i n (record :: rest) t
  = match process_record py_str v cfg net i n record t with
    | (inr _, t') => process_records py_str v cfg net (S i) n rest t'
    | (inl e, t') => (inl e, t')
    end.
Proof. reflexivity. Qed.

Lemma process_records_next i n record rest t :
  fst (process_record py_str v cfg net i n record t) = inr tt ->
  process_records py_str v cfg net i n (record :: rest) t
  = process_records py_str v cfg net (S i) n rest
      (snd (process_record py_str v cfg net i n record t)).
Proof.
  rewrite process_records_cons.
  destruct (process_record _ _ _ _ _ _ _ _) as [[e|[]] t']; cbn [fst snd];
    [discriminate | reflexivity].
Qed.

Lemma process_records_raise i n record rest t e :
  fst (process_record py_str v cfg net i n record t) = inl e ->
  process_records py_str v cfg net i n (record :: rest) t
  = (inl e, snd (process_record py_str v cfg net i n record t)).
Proof.
  rewrite process_records_cons.
  destruct (process_record _ _ _ _ _ _ _ _) as [[e'|[]] t']; cbn [fst snd];
    [congruence | discriminate].
Qed.

Lemma process_records_app i n rs1 rs2 t :
  process_records py_str v cfg net i n (rs1 ++ rs2) t
  = (process_records py_str v cfg net i n rs1 ;;
     process_records py_str v cfg net (i + length rs1) n rs2) t.
Proof.
  revert i t. induction rs1 as [|r rs1 IH]; intros i t.
  - cbn [app process_records length]. unfold bind, ret. now rewrite Nat.add_0_r.
  - cbn [app length]. rewrite process_records_cons.
    unfold bind. cbn [process_records]. unfold bind.
    destruct (process_record _ _ _ _ _ _ _ _) as [[e|[]] t']; [reflexivity|].
    rewrite IH. unfold bind. now rewrite Nat.add_succ_r.
Qed.

End Loop.

(** ** Two runs

    The scenario of the specification: two records, the second without its
    rec-id; the shortener accepts the first. *)
Example run_update_py :
  main str_atom UpdatePy cfg0
    (world (ok (batch [PDict record_a; PDict record_b])) (ok PNone) (ok PNone)) []
  = (inr tt,
     [Log INFO "Starting TinyURL cron job" [];
      Call (fetch_request UpdatePy cfg0);
      Log INFO "Fetched {} records from Airtable" [PInt 2];
      Log INFO "Processing {}/{}: {}" [PInt 1; PInt 2; PStr "A"];
      Call (tinyurl_request str_atom cfg0 (PStr "http://a") (PStr "x1"));
      Call (script_request str_atom cfg0 (PStr "r1") "tinyurl valid");
      Log INFO "Successfully created TinyURL for {}" [PStr "A"];
      Sleep 3;
      Log INFO "Processing {}/{}: {}" [PInt 2; PInt 2; PStr "B"];
      Call (script_request str_atom cfg0 (PStr "r2")
              "error - missing rec-id or url-to-send");
      Log INFO "Cron job completed" []]).
Proof. reflexivity. Qed.

(** The other entry point, on an alias that is taken. *)
Example run_update_tinyurl :
  let out :=
    main str_atom UpdateTinyurl cfg0
      (world (ok (batch [PDict record_t])) (failed 422 "Alias is not available")
         (ok PNone)) [] in
  fst out = inr tt
  /\ effects (snd out)
     = [Call (fetch_request UpdateTinyurl cfg0);
        Call (tinyurl_request str_atom cfg0 (PStr "http://t") (PStr "k9"));
        Call (script_request str_atom cfg0 (PStr "r9") "error - tinyurl creation failed");
        Sleep 3]
  /\ In (Log ERROR "TinyURL creation failed: {}" [PInt 422]) (snd out).
Proof. cbn zeta. repeat split. cbn. tauto. Qed.

(** ** The claims *)





(** C3, as the code has it.  For a valid record, an exception [e] raised by
    the alias-creation call, or by the status write of the create path, is
    caught: the status "error - <message of e>" is written for the record as
    the last effect of its processing, without a pacing delay.  If that
    fault-reporting write returns, whatever its answer (a non-success
    response is ignored), the loop goes on with the next record; if it
    raises, the exception leaves the loop and the rest of the batch is not
    processed. *)
Theorem fault_reported_then_next_record
    py_str v cfg net i n d f rest t e hist :
  record_fields d f ->
  truthy (dict_get "rec-id" f PNone) = true ->
  truthy (dict_get (url_field v) f PNone) = true ->
  let record_id := dict_get "id" d PNone in
  let rec_id := dict_get "rec-id" f PNone in
  let url_to_send := dict_get (url_field v) f PNone in
  let post := Call (tinyurl_request py_str cfg url_to_send rec_id) in
  let created := fst (create_tinyurl py_str v cfg net url_to_send rec_id (effects t)) in
  let report := ("error - " ++ str_exn e)%string in
  let out := process_record py_str v cfg net i n (PDict d) t in
  (created = inl e /\ hist = effects t ++ [post])
  \/ (exists success : bool,
        let message :=
          (if success then "tinyurl valid" else "error - tinyurl creation failed")%string in
        created = inr success
        /\ fst (update_airtable_script_field py_str v cfg net record_id message
                  (effects t ++ [post])) = inl e
        /\ hist = effects t ++ [post; Call (script_request py_str cfg record_id message)]) ->
  effects (snd out) = hist ++ [Call (script_request py_str cfg record_id report)]
  /\ (forall b,
        fst (update_airtable_script_field py_str v cfg net record_id report hist) = inr b ->
        fst out = inr tt
        /\ process_records py_str v cfg net i n (PDict d :: rest) t
           = process_records py_str v cfg net (S i) n rest (snd out))
  /\ (forall e',
        fst (update_airtable_script_field py_str v cfg net record_id report hist) = inl e' ->
        process_records py_str v cfg net i n (PDict d :: rest) t = (inl e', snd out)).
Proof.
  intros Hf Hrec Hurl. cbn zeta. intros Hcase.
  assert (Hreq : has_required v f = true).
  { unfold has_required. now rewrite Hrec, Hurl. }
  pose proof (process_valid_record py_str v cfg net i n d f t Hf Hreq) as H.
  cbn zeta in H.
  assert (Hfault : faulted py_str v cfg net
                     (process_record py_str v cfg net i n (PDict d) t)
                     (dict_get "id" d PNone) e hist).
  { destruct Hcase as [[Hc ->] | [success [Hc [Hw ->]]]].
    - now rewrite Hc in H.
    - rewrite Hc in H. unfold outcome_status in H. now rewrite Hw in H. }
  destruct Hfault as [Hr He]. split; [exact He|]. split.
  - intros b Hb. rewrite Hb in Hr. split; [exact Hr|]. now apply process_records_next.
  - intros e' He'. rewrite He' in Hr. now apply process_records_raise.
Qed.

Lemma fault_reported_then_next_record_witness :
  let net := world (ok (batch [])) (down "Cannot connect to host") (failed 503 "busy") in
  let out := process_record str_atom UpdatePy cfg0 net 0 2 (PDict record_a) [] in
  record_fields record_a fields_a
  /\ effects (snd out)
     = [Call (tinyurl_request str_atom cfg0 (PStr "http://a") (PStr "x1"));
        Call (script_request str_atom cfg0 (PStr "r1") "error - Cannot connect to host")]
  /\ fst out = inr tt
  /\ process_records str_atom UpdatePy cfg0 net 0 2 [PDict record_a; PDict record_c] []
     = process_records str_atom UpdatePy cfg0 net 1 2 [PDict record_c] (snd out).
Proof.
  cbn zeta. split; [reflexivity|].
  destruct (fault_reported_then_next_record str_atom UpdatePy cfg0
              (world (ok (batch [])) (down "Cannot connect to host") (failed 503 "busy"))
              0 2 record_a fields_a [PDict record_c] []
              (Exception "Cannot connect to host")
              [Call (tinyurl_request str_atom cfg0 (PStr "http://a") (PStr "x1"))]
              eq_refl eq_refl eq_refl (or_introl (conj eq_refl eq_refl)))
    as [He [Hret _]].
  destruct (Hret false eq_refl) as [Hr Hgo].
  repeat split; assumption.
Defined.

(** C3 as stated fails: when the status write that reports a fault raises
    too, nothing catches it.  Here the shortener and then the store are
    unreachable: the exception of the fault report ends the loop, and the
    second record of the batch is never looked at. *)
Lemma fault_report_failure_aborts_batch :
  process_records str_atom UpdatePy cfg0
    (world (ok (batch [])) (down "Cannot connect to host") (down "Connection reset"))
    0 2 [PDict record_a; PDict record_c] []
  = (inl (Exception "Connection reset"),
     [Log INFO "Processing {}/{}: {}" [PInt 1; PInt 2; PStr "A"];
      Call (tinyurl_request str_atom cfg0 (PStr "http://a") (PStr "x1"));
      Call (script_request str_atom cfg0 (PStr "r1") "error - Cannot connect to host")]).
Proof. reflexivity. Qed.

Lemma delays_app t t' : delays (t ++ t') = delays t ++ delays t'.
Proof. apply flat_map_app. Qed.

Lemma delays_effects t : delays (effects t) = delays t.
Proof.
  induction t as [|[lvl tpl args|req|z] t IH].
  - reflexivity.
  - rewrite effects_cons_log. exact IH.
  - rewrite effects_cons_call. exact IH.
  - rewrite effects_cons_sleep. change (z :: delays (effects t) = z :: delays t).
    now rewrite IH.
Qed.

(** C4, as the code has it.  The pacing delay of 3 time units is taken when
    the alias creator returned (true or false) and the status write that
    follows returned: it is then the last effect of the record, so it comes
    before the next record.  A record that is Invalid takes no delay, and
    neither does one that is Faulted, whether the alias-creation call or
    the status write raised. *)
Theorem pacing_delay_when_attempt_returns
    py_str v cfg net i n d f t :
  record_fields d f ->
  let record_id := dict_get "id" d PNone in
  let rec_id := dict_get "rec-id" f PNone in
  let url_to_send := dict_get (url_field v) f PNone in
  let post := Call (tinyurl_request py_str cfg url_to_send rec_id) in
  let created := fst (create_tinyurl py_str v cfg net url_to_send rec_id (effects t)) in
  let message (success : bool) :=
    (if success then "tinyurl valid" else "error - tinyurl creation failed")%string in
  let written success :=
    fst (update_airtable_script_field py_str v cfg net record_id (message success)
           (effects t ++ [post])) in
  let out := process_record py_str v cfg net i n (PDict d) t in
  (truthy rec_id && truthy url_to_send = false -> delays (snd out) = delays t)
  /\ (truthy rec_id && truthy url_to_send = true ->
      (forall success b,
          created = inr success -> written success = inr b ->
          effects (snd out)
          = effects t
            ++ [post; Call (script_request py_str cfg record_id (message success));
                Sleep 3])
      /\ (forall e, created = inl e -> delays (snd out) = delays t)
      /\ (forall success e,
             created = inr success -> written success = inl e ->
             delays (snd out) = delays t)).
Proof.
  intros Hf. cbn zeta. split.
  - intros Hreq.
    destruct (process_invalid_record py_str v cfg net i n d f t Hf Hreq) as [_ He].
    rewrite <- delays_effects, He, delays_app, delays_effects. cbn. apply app_nil_r.
  - intros Hreq.
    pose proof (process_valid_record py_str v cfg net i n d f t Hf Hreq) as H.
    cbn zeta in H. unfold outcome_status, faulted in H.
    split; [|split].
    + intros success b Hc Hw. rewrite Hc, Hw in H. apply H.
    + intros e Hc. rewrite Hc in H. destruct H as [_ He].
      rewrite <- delays_effects, He, !delays_app, delays_effects. cbn.
      now rewrite ?app_nil_r.
    + intros success e Hc Hw. rewrite Hc, Hw in H. destruct H as [_ He].
      rewrite <- delays_effects, He, !delays_app, delays_effects. cbn.
      now rewrite ?app_nil_r.
Qed.

Lemma pacing_delay_when_attempt_returns_witness :
  let net := world (ok (batch [])) (failed 422 "Alias is not available") (ok PNone) in
  record_fields record_a fields_a
  /\ effects (snd (process_record str_atom UpdatePy cfg0 net 0 1 (PDict record_a) []))
     = [Call (tinyurl_request str_atom cfg0 (PStr "http://a") (PStr "x1"));
        Call (script_request str_atom cfg0 (PStr "r1") "error - tinyurl creation failed");
        Sleep 3].
Proof.
  cbn zeta. split; [reflexivity|].
  exact (proj1 (proj2 (pacing_delay_when_attempt_returns str_atom UpdatePy cfg0
                         (world (ok (batch [])) (failed 422 "Alias is not available")
                            (ok PNone))
                         0 1 record_a fields_a [] eq_refl) eq_refl)
           false true eq_refl eq_refl).
Defined.

(** C4 as stated fails on the Faulted path: the delay sits inside the [try],
    after the status write, and an exception skips it.  With the shortener
    unreachable, two alias-creation attempts follow each other with no delay
    between them. *)
Lemma no_delay_after_fault :
  let out :=
    process_records str_atom UpdatePy cfg0
      (world (ok (batch [])) (down "Cannot connect to host") (ok PNone))
      0 2 [PDict record_a; PDict record_c] [] in
  fst out = inr tt
  /\ effects (snd out)
     = [Call (tinyurl_request str_atom cfg0 (PStr "http://a") (PStr "x1"));
        Call (script_request str_atom cfg0 (PStr "r1") "error - Cannot connect to host");
        Call (tinyurl_request str_atom cfg0 (PStr "http://c") (PStr "x3"));
        Call (script_request str_atom cfg0 (PStr "r3") "error - Cannot connect to host")]
  /\ delays (snd out) = [].
Proof. cbn zeta. repeat split. Qed.

(** C5. When either mandatory credential is absent (or empty), [main] logs
    which one and returns: it performs no effect at all, neither a fetch nor
    an alias creation nor a status write nor a delay. *)
Theorem missing_credential_no_network py_str v cfg net t :
  env_truthy (AIRTABLE_API_KEY cfg) = false
  \/ env_truthy (TINYURL_API_TOKEN cfg) = false ->
  let out := main py_str v cfg net t in
  fst out = inr tt
  /\ effects (snd out) = effects t
  /\ exists logged variable,
       snd out
       = t ++ Log INFO "Starting TinyURL cron job" [] :: logged
           ++ [Log ERROR (variable ++ " environment variable not set") []]
       /\ effects logged = []
       /\ (variable = "AIRTABLE_API_KEY" \/ variable = "TINYURL_API_TOKEN")%string.
Proof.
  intros Hcred. cbn zeta. unfold main, logging_info, logging_error, when.
  unfold bind at 1. cbn [emit].
  destruct (env_truthy (AIRTABLE_API_KEY cfg)) eqn:Hkey; cbn [negb].
  - destruct Hcred as [Hcred | Htok]; [discriminate|]. rewrite Htok. cbn [negb].
    destruct (AIRTABLE_API_KEY cfg) as [key|]; [|discriminate].
    destruct v; cbn.
    + split; [reflexivity|]. split; [now trace_simpl|].
      exists [], "TINYURL_API_TOKEN"%string. rewrite <- app_assoc. cbn. auto.
    + split; [reflexivity|]. split; [now trace_simpl|].
      exists [Log INFO "AIRTABLE_API_KEY is set (length: {})"
                [PInt (Z.of_nat (String.length key))]],
        "TINYURL_API_TOKEN"%string.
      rewrite <- !app_assoc. cbn. auto.
  - cbn. split; [reflexivity|]. split; [now trace_simpl|].
    exists [], "AIRTABLE_API_KEY"%string. rewrite <- app_assoc. cbn. auto.
Qed.

Lemma missing_credential_no_network_witness :
  let cfg := load_config (fun k => if (k =? "AIRTABLE_API_KEY")%string
                                   then Some "key"%string else None) in
  let out := main str_atom UpdateTinyurl cfg
               (world (ok (batch [PDict record_a])) (ok PNone) (ok PNone)) [] in
  env_truthy (TINYURL_API_TOKEN cfg) = false
  /\ fst out = inr tt
  /\ effects (snd out) = [].
Proof.
  cbn zeta. split; [reflexivity|].
  destruct (missing_credential_no_network str_atom UpdateTinyurl
              (load_config (fun k => if (k =? "AIRTABLE_API_KEY")%string
                                     then Some "key"%string else None))
              (world (ok (batch [PDict record_a])) (ok PNone) (ok PNone)) []
              (or_intror eq_refl)) as [Hr [He _]].
  split; assumption.
Defined.

Lemma written_urls_app t t' : written_urls (t ++ t') = written_urls t ++ written_urls t'.
Proof. apply flat_map_app. Qed.

Lemma written_urls_effects t : written_urls (effects t) = written_urls t.
Proof.
  induction t as [|[lvl tpl args|req|z] t IH].
  - reflexivity.
  - rewrite effects_cons_log. exact IH.
  - rewrite effects_cons_call. destruct req; [exact IH | exact IH |].
    change (url :: written_urls (effects t) = url :: written_urls t).
    now rewrite IH.
  - rewrite effects_cons_sleep. exact IH.
Qed.

Lemma written_urls_step t t' new :
  effects t' = effects t ++ new ->
  written_urls t' = written_urls t ++ written_urls new.
Proof.
  intros H. rewrite <- (written_urls_effects t'), H, written_urls_app.
  now rewrite written_urls_effects.
Qed.

(** C6, as the code has it.  The loop takes the records in the order of the
    fetched list.  Provided every record is well formed and status writes
    return (with whatever answer), no outcome of a record, be it Invalid,
    Failed or Faulted, stops the batch: the loop runs to its end and each
    record got exactly one status write, in fetch order. *)
Theorem batch_runs_in_order_to_the_end
    py_str v cfg net i n records t :
  (forall record_id message hist,
      exists b, fst (update_airtable_script_field py_str v cfg net
                       record_id message hist) = inr b) ->
  Forall well_formed records ->
  let out := process_records py_str v cfg net i n records t in
  fst out = inr tt
  /\ written_urls (snd out)
     = written_urls t ++ map (record_url py_str cfg) records.
Proof.
  intros Hw Hrs. cbn zeta. revert i t.
  induction Hrs as [|record rest [d [f [-> Hf]]] _ IH]; intros i t.
  - cbn. now rewrite app_nil_r.
  - assert (Hone :
      fst (process_record py_str v cfg net i n (PDict d) t) = inr tt
      /\ written_urls (snd (process_record py_str v cfg net i n (PDict d) t))
         = written_urls t ++ [record_url py_str cfg (PDict d)]).
    { destruct (has_required v f) eqn:Hreq.
      - pose proof (process_valid_record py_str v cfg net i n d f t Hf Hreq) as H.
        cbn zeta in H. unfold faulted in H.
        repeat match type of H with
               | context [fst (update_airtable_script_field ?a ?b ?c ?e ?r ?m ?h)] =>
                   let b' := fresh "b" in
                   let E := fresh "E" in
                   destruct (Hw r m h) as [b' E]; rewrite E in H; clear E
               | context [match ?x with inl _ => _ | inr _ => _ end] => destruct x
               end.
        all: destruct H as [Hr He]; split; [exact Hr|].
        all: rewrite <- ?app_assoc in He; cbn [app] in He.
        all: rewrite (written_urls_step _ _ _ He); reflexivity.
      - destruct (process_invalid_record py_str v cfg net i n d f t Hf Hreq) as [Hr He].
        destruct (Hw (dict_get "id" d PNone) (missing_message v) (effects t)) as [b E].
        rewrite E in Hr. split; [exact Hr|].
        rewrite (written_urls_step _ _ _ He). reflexivity. }
    destruct Hone as [Hr Hu].
    rewrite (process_records_next _ _ _ _ _ _ _ _ _ Hr).
    destruct (IH (S i) (snd (process_record py_str v cfg net i n (PDict d) t)))
      as [Hr' Hu'].
    split; [exact Hr'|]. rewrite Hu', Hu, <- app_assoc. reflexivity.
Qed.

Lemma batch_runs_in_order_to_the_end_witness :
  let net := world (ok (batch [])) (down "Cannot connect to host") (failed 503 "busy") in
  let out := process_records str_atom UpdatePy cfg0 net 0 3
               [PDict record_a; PDict record_b; PDict record_c] [] in
  Forall well_formed [PDict record_a; PDict record_b; PDict record_c]
  /\ fst out = inr tt
  /\ written_urls (snd out)
     = ["https://api.airtable.com/v0/appYaT73RTzmoKIrq/Applications/r1";
        "https://api.airtable.com/v0/appYaT73RTzmoKIrq/Applications/r2";
        "https://api.airtable.com/v0/appYaT73RTzmoKIrq/Applications/r3"]%string.
Proof.
  cbn zeta.
  assert (Hwf : Forall well_formed [PDict record_a; PDict record_b; PDict record_c]).
  { repeat constructor;
      [exists record_a, fields_a | exists record_b, fields_b | exists record_c, fields_c];
      split; reflexivity. }
  split; [exact Hwf|].
  apply (batch_runs_in_order_to_the_end str_atom UpdatePy cfg0
           (world (ok (batch [])) (down "Cannot connect to host") (failed 503 "busy"))
           0 3 [PDict record_a; PDict record_b; PDict record_c] []).
  - intros record_id message hist. exists false. reflexivity.
  - exact Hwf.
Defined.

(** C6 as stated fails: the status write of the Invalid path is outside the
    [try].  The store answers the fetch and is then unreachable: the write
    for the first record, which lacks its rec-id, raises, [main] ends with
    that exception, and the valid second record is never processed. *)
Lemma invalid_write_failure_ends_batch :
  let out :=
    main str_atom UpdatePy cfg0
      (world (ok (batch [PDict record_b; PDict record_a])) (ok PNone)
         (down "Connection reset")) [] in
  fst out = inl (Exception "Connection reset")
  /\ effects (snd out)
     = [Call (fetch_request UpdatePy cfg0);
        Call (script_request str_atom cfg0 (PStr "r2")
                "error - missing rec-id or url-to-send")].
Proof. cbn zeta. split; reflexivity. Qed.








Lemma dict_lookup_strip_fields v k f :
  k <> name_field v ->
  dict_lookup k (filter (fun kv => negb (fst kv =? name_field v)%string) f)
  = dict_lookup k f.
Proof.
  intros Hk. induction f as [|[k' x] f IH]; [reflexivity|].
  cbn [filter fst dict_lookup].
  destruct (String.eqb_spec k' (name_field v)) as [->|Hk']; cbn [negb].
  - apply String.eqb_neq in Hk. now rewrite Hk.
  - cbn [dict_lookup]. now rewrite IH.
Qed.

Lemma dict_lookup_strip_name v k d :
  dict_lookup k (map (fun kv => if (fst kv =? "fields")%string
                                then (fst kv, strip_fields v (snd kv))
                                else kv) d)
  = if (k =? "fields")%string
    then option_map (strip_fields v) (dict_lookup k d)
    else dict_lookup k d.
Proof.
  induction d as [|[k' x] d IH].
  - cbn. now destruct (k =? "fields")%string.
  - cbn [map fst snd].
    destruct (String.eqb_spec k' "fields") as [->|Hk'].
    + cbn [dict_lookup]. rewrite IH.
      destruct (k =? "fields")%string; reflexivity.
    + cbn [dict_lookup]. rewrite IH.
      destruct (String.eqb_spec k k') as [->|Hkk'].
      * apply String.eqb_neq in Hk'. now rewrite Hk'.
      * reflexivity.
Qed.

Lemma strip_fields_inv v x1 x2 :
  strip_fields v x1 = strip_fields v x2 ->
  (exists f1 f2, x1 = PDict f1 /\ x2 = PDict f2
                 /\ forall k default, k <> name_field v ->
                      dict_get k f1 default = dict_get k f2 default)
  \/ ((forall f, x1 <> PDict f) /\ x1 = x2).
Proof.
  intros H.
  destruct x1 as [| | | | |f1]; destruct x2 as [| | | | |f2]; cbn in H;
    try discriminate;
    try (right; split; [intros; discriminate | assumption]).
  left. exists f1, f2. repeat split. intros k default Hk.
  injection H as H. unfold dict_get.
  rewrite <- (dict_lookup_strip_fields v k f1 Hk),
          <- (dict_lookup_strip_fields v k f2 Hk), H.
  reflexivity.
Qed.

Lemma strip_name_inv v d1 d2 :
  strip_name v (PDict d1) = strip_name v (PDict d2) ->
  dict_get "id" d1 PNone = dict_get "id" d2 PNone
  /\ strip_fields v (dict_get "fields" d1 (PDict []))
     = strip_fields v (dict_get "fields" d2 (PDict [])).
Proof.
  intros H. injection H as H.
  pose proof (dict_lookup_strip_name v "id" d1) as Hid1.
  pose proof (dict_lookup_strip_name v "id" d2) as Hid2.
  pose proof (dict_lookup_strip_name v "fields" d1) as Hf1.
  pose proof (dict_lookup_strip_name v "fields" d2) as Hf2.
  rewrite H in Hid1, Hf1. rewrite Hid2 in Hid1. rewrite Hf2 in Hf1.
  cbn in Hid1, Hf1. unfold dict_get. rewrite Hid1. split; [reflexivity|].
  destruct (dict_lookup "fields" d1), (dict_lookup "fields" d2); cbn in Hf1;
    congruence.
Qed.

Section NameIndependence.

Variable py_str : pyval -> string.
Variable v : script.
Variable cfg : config.
Variable net : network.

Lemma sim_update record_id msg :
  sim (update_airtable_script_field py_str v cfg net record_id msg)
      (update_airtable_script_field py_str v cfg net record_id msg).
Proof.
  intros t1 t2 H. split.
  - rewrite (update_history _ _ _ _ _ _ t1), (update_history _ _ _ _ _ _ t2).
    now rewrite H.
  - rewrite !update_effects. now rewrite H.
Qed.

Lemma sim_create url alias :
  sim (create_tinyurl py_str v cfg net url alias)
      (create_tinyurl py_str v cfg net url alias).
Proof.
  intros t1 t2 H. split.
  - rewrite (create_history _ _ _ _ _ _ t1), (create_history _ _ _ _ _ _ t2).
    now rewrite H.
  - rewrite !create_effects. now rewrite H.
Qed.

Lemma sim_reconcile record_id name1 name2 rec_id url_to_send :
  sim (reconcile py_str v cfg net record_id name1 rec_id url_to_send)
      (reconcile py_str v cfg net record_id name2 rec_id url_to_send).
Proof.
  unfold reconcile.
  destruct (negb (truthy rec_id) || negb (truthy url_to_send)).
  - apply sim_bind; [apply sim_update | intros; apply sim_ret].
  - apply sim_try_except.
    + apply sim_bind; [apply sim_create|]. intros success.
      apply sim_bind; [|intros; apply sim_sleep].
      destruct success;
        (apply sim_bind; [apply sim_update | intros; apply sim_log]).
    + intros e. apply sim_bind; [apply sim_update | intros; apply sim_log].
Qed.

Lemma sim_process_record i1 n1 i2 n2 r1 r2 :
  strip_name v r1 = strip_name v r2 ->
  sim (process_record py_str v cfg net i1 n1 r1)
      (process_record py_str v cfg net i2 n2 r2).
Proof.
  intros Hs.
  destruct r1 as [| | | | |d1]; destruct r2 as [| | | | |d2]; cbn in Hs;
    try discriminate;
    try (injection Hs as <-); try (intros t1 t2 H; cbn; auto; fail).
  destruct (strip_name_inv v d1 d2 Hs) as [Hid Hfields].
  destruct (strip_fields_inv v _ _ Hfields)
    as [[f1 [f2 [H1 [H2 Hget]]]] | [Hnd Heq]].
  - intros t1 t2 H.
    rewrite (process_record_fields py_str v cfg net i1 n1 d1 f1 t1 H1),
            (process_record_fields py_str v cfg net i2 n2 d2 f2 t2 H2).
    rewrite Hid.
    rewrite (Hget "rec-id"%string PNone), (Hget (url_field v) PNone);
      [| destruct v; discriminate | destruct v; discriminate].
    apply sim_reconcile. now rewrite !effects_log.
  - intros t1 t2 H. unfold process_record. cbn [get]. rewrite <- Heq.
    destruct (dict_get "fields" d1 (PDict [])) as [| | | | |f] eqn:E;
      try (cbn; auto; fail).
    exfalso. now apply (Hnd f).
Qed.

Lemma sim_process_records i1 n1 i2 n2 rs1 rs2 :
  map (strip_name v) rs1 = map (strip_name v) rs2 ->
  sim (process_records py_str v cfg net i1 n1 rs1)
      (process_records py_str v cfg net i2 n2 rs2).
Proof.
  revert i1 i2 rs2. induction rs1 as [|r1 rs1 IH]; intros i1 i2 [|r2 rs2] H;
    try discriminate.
  - apply sim_ret.
  - injection H as Hr Hrs. cbn [process_records].
    apply sim_bind; [now apply sim_process_record|].
    intros _. now apply IH.
Qed.

End NameIndependence.

(** C9. The display name of a record reaches the log and nothing else: on
    two batches that are the same but for the names in their fields, the loop
    ends the same way and performs the same effects, that is the same
    alias-creation requests, the same status writes (targets and messages)
    and the same delays, in the same order. *)
Theorem name_only_reaches_the_log py_str v cfg net i n records1 records2 t :
  map (strip_name v) records1 = map (strip_name v) records2 ->
  let out1 := process_records py_str v cfg net i n records1 t in
  let out2 := process_records py_str v cfg net i n records2 t in
  fst out1 = fst out2 /\ effects (snd out1) = effects (snd out2).
Proof.
  intros H. cbn zeta.
  now apply (sim_process_records py_str v cfg net i n i n records1 records2 H).
Qed.

Lemma name_only_reaches_the_log_witness :
  let net := world (ok (batch [])) (ok PNone) (failed 503 "busy") in
  let renamed :=
    PDict [("id", PStr "r1");
           ("fields", PDict [("Name [Primary]", PStr "Someone else");
                             ("rec-id", PStr "x1");
                             ("url-to-send", PStr "http://a")])] in
  map (strip_name UpdatePy) [PDict record_a; PDict record_b]
  = map (strip_name UpdatePy) [renamed; PDict record_b]
  /\ effects (snd (process_records str_atom UpdatePy cfg0 net 0 2
                     [PDict record_a; PDict record_b] []))
     = effects (snd (process_records str_atom UpdatePy cfg0 net 0 2
                       [renamed; PDict record_b] [])).
Proof.
  cbn zeta. split; [reflexivity|].
  apply (name_only_reaches_the_log str_atom UpdatePy cfg0
           (world (ok (batch [])) (ok PNone) (failed 503 "busy")) 0 2
           [PDict record_a; PDict record_b] _ []).
  reflexivity.
Defined.

(** C10. A record without a ['fields'] mapping is processed exactly as the
    same record with an empty one, and performs the same effects as with any
    fields whose required values are missing or empty: it takes the Invalid
    path and its only effect is the missing-field status write.  When the
    record has no ['id'] either, that write is still made, with [None] as
    the record identifier: its URL ends in "/None". *)
Theorem record_without_fields_is_invalid py_str v cfg net i n d t :
  py_str PNone = "None"%string ->
  dict_lookup "fields" d = None ->
  let out := process_record py_str v cfg net i n (PDict d) t in
  let message :=
    match v with
    | UpdatePy => "error - missing rec-id or url-to-send"
    | UpdateTinyurl => "error - missing rec-id or big-url"
    end%string in
  out = process_record py_str v cfg net i n (PDict (("fields", PDict []) :: d)) t
  /\ (forall f,
        truthy (dict_get "rec-id" f PNone) && truthy (dict_get (url_field v) f PNone)
        = false ->
        let out' :=
          process_record py_str v cfg net i n (PDict (("fields", PDict f) :: d)) t in
        fst out = fst out' /\ effects (snd out) = effects (snd out'))
  /\ effects (snd out)
     = effects t ++ [Call (script_request py_str cfg (dict_get "id" d PNone) message)]
  /\ (dict_lookup "id" d = None ->
      effects (snd out)
      = effects t
        ++ [Call (PATCH (airtable_url cfg ++ "/None")%string
                    (PDict [("fields", PDict [("script", PStr message)])])
                    (airtable_headers cfg))]).
Proof.
  intros Hnone Hno. cbn zeta.
  assert (Hf : record_fields d []).
  { unfold record_fields, dict_get. now rewrite Hno. }
  assert (Hreq : has_required v [] = false) by reflexivity.
  destruct (process_invalid_record py_str v cfg net i n d [] t Hf Hreq) as [Hr He].
  split; [|split; [|split]].
  - rewrite (process_record_fields py_str v cfg net i n d [] t Hf).
    now rewrite (process_record_fields py_str v cfg net i n
                   (("fields", PDict []) :: d) [] t eq_refl).
  - intros f Hmiss. cbn zeta.
    destruct (process_invalid_record py_str v cfg net i n
                (("fields", PDict f) :: d) f t eq_refl Hmiss) as [Hr' He'].
    change (dict_get "id" (("fields", PDict f) :: d) PNone)
      with (dict_get "id" d PNone) in Hr', He'.
    now rewrite Hr, He, Hr', He'.
  - exact He.
  - intros Hid. rewrite He. unfold script_request, dict_get.
    now rewrite Hid, Hnone.
Qed.

Lemma record_without_fields_is_invalid_witness :
  let net := world (ok (batch [])) (ok PNone) (failed 404 "NOT_FOUND") in
  str_atom PNone = "None"%string
  /\ dict_lookup "fields" [] = None
  /\ effects (snd (process_record str_atom UpdatePy cfg0 net 0 1 (PDict []) []))
     = [Call (PATCH "https://api.airtable.com/v0/appYaT73RTzmoKIrq/Applications/None"
                (PDict [("fields",
                         PDict [("script",
                                 PStr "error - missing rec-id or url-to-send")])])
                (airtable_headers cfg0))].
Proof.
  cbn zeta. split; [reflexivity|]. split; [reflexivity|].
  destruct (record_without_fields_is_invalid str_atom UpdatePy cfg0
              (world (ok (batch [])) (ok PNone) (failed 404 "NOT_FOUND"))
              0 1 [] [] eq_refl eq_refl) as [_ [_ [_ Hid]]].
  exact (Hid eq_refl).
Defined.

(** * Further properties of the code *)

(** ** The status writer and the record source *)

(** X1. The status writer sends exactly one request whatever the reply: the
    PATCH of the record's entry with the body {fields: {script: message}}
    and the bearer key.  It returns true on status 200, false on any other
    status (in update-tinyurl/update.py after the text of the response has
    been read for the log), and raises what the session call raises. *)
Theorem update_airtable_script_field_contract
    py_str v cfg net record_id message t :
  let req :=
    PATCH (airtable_url cfg ++ "/" ++ py_str record_id)%string
          (PDict [("fields", PDict [("script", PStr message)])])
          [("Authorization", "Bearer " ++ fmt_env (AIRTABLE_API_KEY cfg));
           ("Content-Type", "application/json")]%string in
  let out := update_airtable_script_field py_str v cfg net record_id message t in
  effects (snd out) = effects t ++ [Call req]
  /\ (forall r, net (effects t) req = inr r -> status r = 200%Z -> fst out = inr true)
  /\ (forall r, net (effects t) req = inr r -> status r <> 200%Z ->
      fst out = if verbose v
                then match text r with inl e => inl e | inr _ => inr false end
                else inr false)
  /\ (forall e, net (effects t) req = inl e -> fst out = inl e).
Proof.
  cbn zeta. split; [apply update_effects|].
  unfold update_airtable_script_field, script_request, airtable_headers, when,
    logging_info, logging_error, bind, emit, lift, ret.
  cbn [session_request].
  destruct v; cbn [verbose]; trace_simpl.
  - destruct (net _ _) as [e|r]; cbn [fst].
    + repeat split; try discriminate; congruence.
    + split; [|split].
      * intros r' [= <-] ->. reflexivity.
      * intros r' [= <-] Hs. apply Z.eqb_neq in Hs. now rewrite Hs.
      * discriminate.
  - destruct (net _ _) as [e|r]; cbn [fst].
    + repeat split; try discriminate; congruence.
    + split; [|split].
      * intros r' [= <-] ->. reflexivity.
      * intros r' [= <-] Hs. apply Z.eqb_neq in Hs. rewrite Hs.
        destruct (text r); reflexivity.
      * discriminate.
Qed.

Lemma fetch_effects v cfg net t :
  effects (snd (fetch_airtable_records v cfg net t))
  = effects t ++ [Call (fetch_request v cfg)].
Proof.
  unfold fetch_airtable_records, when, logging_info, logging_error,
    bind, emit, lift, ret.
  cbn [session_request].
  destruct v; cbn [verbose]; trace_simpl.
  - destruct (net _ _) as [e|r]; cbn [fst snd]; trace_simpl; [reflexivity|].
    destruct (status r =? 200)%Z; cbn [fst snd]; trace_simpl; [|reflexivity].
    destruct (json r) as [e|data]; cbn [fst snd]; trace_simpl; reflexivity.
  - destruct (net _ _) as [e|r]; cbn [fst snd]; trace_simpl; [reflexivity|].
    destruct (status r =? 200)%Z; cbn [fst snd]; trace_simpl.
    + destruct (json r) as [e|data]; cbn [fst snd]; trace_simpl; reflexivity.
    + destruct (text r); cbn [fst snd]; trace_simpl; reflexivity.
Qed.

Lemma fetch_history v cfg net t :
  fst (fetch_airtable_records v cfg net t)
  = fst (fetch_airtable_records v cfg net (effects t)).
Proof.
  unfold fetch_airtable_records, when, logging_info, logging_error,
    bind, emit, lift, ret.
  cbn [session_request].
  destruct v; cbn [verbose]; trace_simpl.
  - destruct (net _ _) as [e|r]; cbn [fst snd]; [reflexivity|].
    destruct (status r =? 200)%Z; cbn [fst snd]; [|reflexivity].
    destruct (json r) as [e|data]; reflexivity.
  - destruct (net _ _) as [e|r]; cbn [fst snd]; [reflexivity|].
    destruct (status r =? 200)%Z; cbn [fst snd].
    + destruct (json r) as [e|data]; reflexivity.
    + destruct (text r); reflexivity.
Qed.

Lemma fetch_returns_on_200 v cfg net t r :
  net (effects t) (fetch_request v cfg) = inr r ->
  status r = 200%Z ->
  fst (fetch_airtable_records v cfg net t)
  = match json r with
    | inl e => inl e
    | inr data => get data "records" (PList [])
    end.
Proof.
  intros Hnet Hs. rewrite fetch_history.
  unfold fetch_airtable_records, when, logging_info, logging_error,
    bind, emit, lift, ret.
  cbn [session_request].
  destruct v; cbn [verbose]; trace_simpl; rewrite Hnet, Hs; cbn [Z.eqb Pos.eqb fst].
  - destruct (json r) as [e|data]; reflexivity.
  - destruct (json r) as [e|data]; reflexivity.
Qed.

(** X2. The record source sends exactly one request whatever the reply, the
    GET of the table with the view and the three field names.  On status
    200 it returns what the decoded body holds under 'records', as it is,
    and an empty list when the body has no such key; it raises what
    decoding the body raises, and an AttributeError when the body is not a
    mapping. *)
Theorem fetch_airtable_records_on_success v cfg net t r :
  let req :=
    GET ("https://api.airtable.com/v0/" ++ AIRTABLE_BASE_ID cfg
         ++ "/" ++ AIRTABLE_TABLE_NAME cfg)%string
        [("Authorization", "Bearer " ++ fmt_env (AIRTABLE_API_KEY cfg));
         ("Content-Type", "application/json")]%string
        (PDict [("view", PStr (AIRTABLE_VIEW_NAME cfg));
                ("fields", PList [PStr (name_field v); PStr "rec-id";
                                  PStr (url_field v)])]) in
  let out := fetch_airtable_records v cfg net t in
  net (effects t) req = inr r ->
  status r = 200%Z ->
  effects (snd out) = effects t ++ [Call req]
  /\ fst out
     = match json r with
       | inl e => inl e
       | inr (PDict data) =>
           inr (match dict_lookup "records" data with
                | Some records => records
                | None => PList []
                end)
       | inr data =>
           inl (Exception ("'" ++ type_name data
                           ++ "' object has no attribute 'get'")%string)
       end.
Proof.
  cbn zeta. intros Hnet Hs. split; [apply fetch_effects|].
  rewrite (fetch_returns_on_200 v cfg net t r Hnet Hs).
  destruct (json r) as [e|[]]; reflexivity.
Qed.

Lemma fetch_airtable_records_on_success_witness :
  let net := world (ok (PDict [("offset", PStr "itr1")])) (ok PNone) (ok PNone) in
  net (effects []) (fetch_request UpdateTinyurl cfg0)
  = ok (PDict [("offset", PStr "itr1")])
  /\ fst (fetch_airtable_records UpdateTinyurl cfg0 net []) = inr (PList []).
Proof.
  cbn zeta. split; [reflexivity|].
  exact (proj2 (fetch_airtable_records_on_success UpdateTinyurl cfg0
                  (world (ok (PDict [("offset", PStr "itr1")])) (ok PNone) (ok PNone))
                  [] _ eq_refl eq_refl)).
Defined.

(** ** Records that are not mappings *)

(** X3. A record that is not a mapping, or whose 'fields' is present but
    not a mapping, makes the loop raise an AttributeError when its values
    are read, before the try: nothing is logged or requested for it, and
    the records after it are not processed. *)
Theorem record_not_a_mapping_ends_loop py_str v cfg net i n record rest t :
  let culprit :=
    match record with
    | PDict d => dict_get "fields" d (PDict [])
    | _ => record
    end in
  (forall f, culprit <> PDict f) ->
  process_records py_str v cfg net i n (record :: rest) t
  = (inl (Exception ("'" ++ type_name culprit
                     ++ "' object has no attribute 'get'")%string), t).
Proof.
  cbn zeta. intros Hbad.
  rewrite process_records_cons. unfold process_record.
  destruct record as [| | | | |d]; try reflexivity.
  cbn [get]. unfold bind at 1. cbn [lift]. unfold bind at 1. cbn [lift].
  destruct (dict_get "fields" d (PDict [])) as [| | | | |f]; try reflexivity.
  exfalso. now apply (Hbad f).
Qed.

Lemma record_not_a_mapping_ends_loop_witness :
  let broken := PDict [("id", PStr "r0"); ("fields", PNone)] in
  (forall f, PNone <> PDict f)
  /\ process_records str_atom UpdatePy cfg0
       (world (ok (batch [])) (ok PNone) (ok PNone)) 0 2 [broken; PDict record_a] []
     = (inl (Exception "'NoneType' object has no attribute 'get'"), []).
Proof.
  cbn zeta. split; [discriminate|].
  apply (record_not_a_mapping_ends_loop str_atom UpdatePy cfg0
           (world (ok (batch [])) (ok PNone) (ok PNone)) 0 2
           (PDict [("id", PStr "r0"); ("fields", PNone)]) [PDict record_a] []).
  discriminate.
Defined.

(** ** What the loop may do *)

Section LoopEffects.

Variable py_str : pyval -> string.
Variable v : script.
Variable cfg : config.
Variable net : network.

(** Whatever the record and the network, the effects of one record have one
    of five shapes. *)
Lemma process_record_effects i n record t :
  exists new,
    effects (snd (process_record py_str v cfg net i n record t)) = effects t ++ new
    /\ record_effects py_str v cfg new.
Proof.
  destruct record as [| | | | |d];
    try (exists []; unfold process_record; cbn [get]; unfold bind, lift;
         cbn [fst snd]; rewrite app_nil_r; split; [reflexivity | now left]).
  destruct (dict_get "fields" d (PDict [])) as [| | | | |f] eqn:Hf;
    try (exists []; unfold process_record; cbn [get]; rewrite Hf;
         unfold bind, lift; cbn [get fst snd];
         rewrite app_nil_r; split; [reflexivity | now left]).
  destruct (has_required v f) eqn:Hreq.
  - pose proof (process_valid_record py_str v cfg net i n d f t Hf Hreq) as H.
    cbn zeta in H. unfold faulted in H.
    apply andb_prop in Hreq. destruct Hreq as [Hrec Hurl].
    destruct (fst (create_tinyurl _ _ _ _ _ _ _)) as [e|success].
    + destruct H as [_ He]. rewrite <- app_assoc in He. cbn [app] in He.
      eexists. split; [exact He|]. right. right.
      exists (dict_get "id" d PNone), (dict_get (url_field v) f PNone),
        (dict_get "rec-id" f PNone).
      split; [exact Hurl|]. split; [exact Hrec|]. cbn zeta. right. right.
      now exists e.
    + destruct (fst (update_airtable_script_field _ _ _ _ _ _ _)) as [e|b].
      * destruct H as [_ He]. rewrite <- app_assoc in He. cbn [app] in He.
        eexists. split; [exact He|]. right. right.
        exists (dict_get "id" d PNone), (dict_get (url_field v) f PNone),
          (dict_get "rec-id" f PNone).
        split; [exact Hurl|]. split; [exact Hrec|]. cbn zeta. right. left.
        now exists success, e.
      * destruct H as [_ He].
        eexists. split; [exact He|]. right. right.
        exists (dict_get "id" d PNone), (dict_get (url_field v) f PNone),
          (dict_get "rec-id" f PNone).
        split; [exact Hurl|]. split; [exact Hrec|]. cbn zeta. left.
        now exists success.
  - destruct (process_invalid_record py_str v cfg net i n d f t Hf Hreq) as [_ He].
    eexists. split; [exact He|]. right. left. now exists (dict_get "id" d PNone).
Qed.

Lemma process_records_effects i n records t :
  exists news,
    effects (snd (process_records py_str v cfg net i n records t))
    = effects t ++ concat news
    /\ Forall (record_effects py_str v cfg) news
    /\ length news <= length records.
Proof.
  revert i t. induction records as [|record rest IH]; intros i t.
  - exists []. cbn. rewrite app_nil_r. auto.
  - rewrite process_records_cons.
    destruct (process_record_effects i n record t) as [new [He Hshape]].
    destruct (process_record py_str v cfg net i n record t) as [[e|[]] t'];
      cbn [fst snd] in *.
    + exists [new]. cbn [concat length]. rewrite app_nil_r.
      repeat split; [exact He | now constructor | lia].
    + destruct (IH (S i) t') as [news [He' [Hall Hlen]]].
      exists (new :: news). cbn [concat length].
      rewrite He', He, <- app_assoc.
      repeat split; [now constructor | lia].
Qed.

End LoopEffects.

Lemma alias_requests_app t t' :
  alias_requests (t ++ t') = alias_requests t ++ alias_requests t'.
Proof. apply flat_map_app. Qed.

Lemma alias_requests_effects t : alias_requests (effects t) = alias_requests t.
Proof.
  induction t as [|[lvl tpl args|req|z] t IH].
  - reflexivity.
  - rewrite effects_cons_log. exact IH.
  - rewrite effects_cons_call. destruct req; [exact IH | | exact IH].
    change (POST url json0 hdrs :: alias_requests (effects t)
            = POST url json0 hdrs :: alias_requests t).
    now rewrite IH.
  - rewrite effects_cons_sleep. exact IH.
Qed.

Lemma alias_requests_step t t' new :
  effects t' = effects t ++ new ->
  alias_requests t' = alias_requests t ++ alias_requests new.
Proof.
  intros H. rewrite <- (alias_requests_effects t'), H, alias_requests_app.
  now rewrite alias_requests_effects.
Qed.

Lemma delays_step t t' new :
  effects t' = effects t ++ new -> delays t' = delays t ++ delays new.
Proof.
  intros H. rewrite <- (delays_effects t'), H, delays_app.
  now rewrite delays_effects.
Qed.

Lemma record_effects_allowed py_str v cfg new :
  record_effects py_str v cfg new -> Forall (loop_effect py_str v cfg) new.
Proof.
  assert (Hw : forall record_id m, status_message v m ->
            loop_effect py_str v cfg (Call (script_request py_str cfg record_id m))).
  { intros record_id m Hm. cbn. now exists record_id, m. }
  assert (Hp : forall u a, truthy u = true -> truthy a = true ->
            loop_effect py_str v cfg (Call (tinyurl_request py_str cfg u a))).
  { intros u a Hu Ha. cbn. now exists u, a. }
  assert (Hs : forall success, status_message v (outcome_status success)).
  { intros [|]; cbn; unfold status_message; auto. }
  assert (He : forall e, status_message v ("error - " ++ str_exn e)%string).
  { intros e. right. right. right. now exists e. }
  intros [-> | [[record_id ->] | [record_id [u [a [Hu [Ha H]]]]]]].
  - constructor.
  - repeat constructor. apply Hw. unfold status_message. auto.
  - cbn zeta in H.
    destruct H as [[success ->] | [[success [e ->]] | [e ->]]];
      repeat constructor; auto.
Qed.

Lemma record_effects_counts py_str v cfg new :
  record_effects py_str v cfg new ->
  length (alias_requests new) <= 1
  /\ length (written_urls new) <= 2
  /\ exists k, k <= length (alias_requests new) /\ delays new = repeat 3%Z k.
Proof.
  intros [-> | [[record_id ->] | [record_id [u [a [Hu [Ha H]]]]]]].
  - cbn. repeat split; try lia. exists 0. auto.
  - cbn. repeat split; try lia. exists 0. split; [lia | reflexivity].
  - cbn zeta in H.
    destruct H as [[success ->] | [[success [e ->]] | [e ->]]]; cbn;
      repeat split; try lia.
    + exists 1. auto.
    + exists 0. split; [lia | reflexivity].
    + exists 0. split; [lia | reflexivity].
Qed.

Lemma records_effects_allowed py_str v cfg news :
  Forall (record_effects py_str v cfg) news ->
  Forall (loop_effect py_str v cfg) (concat news).
Proof.
  intros Hall. induction Hall as [|new news Hnew _ IH]; [constructor|].
  cbn [concat]. apply Forall_app. split; [|exact IH].
  now apply record_effects_allowed.
Qed.

(** X4. Whatever the batch holds and whatever the network answers, the loop
    performs nothing but pacing delays of 3, alias creations and status
    writes: it never reads the store; every alias creation goes to the
    shortener's creation endpoint, for a non-empty target URL and slug, with
    the content type as its only header; every status write sets the script
    field of a record to "tinyurl valid", "error - tinyurl creation failed",
    the missing-field message or "error - " followed by the message of an
    exception. *)
Theorem loop_effects_are_allowed py_str v cfg net i n records t :
  exists new,
    effects (snd (process_records py_str v cfg net i n records t)) = effects t ++ new
    /\ Forall (loop_effect py_str v cfg) new.
Proof.
  destruct (process_records_effects py_str v cfg net i n records t)
    as [news [He [Hall _]]].
  exists (concat news). split; [exact He|].
  now apply records_effects_allowed.
Qed.

(** X5. A batch of [n] records costs at most [n] alias creations, at most
    [2 n] status writes and at most [n] pacing delays, each of 3 and never
    more of them than alias creations, whatever the network answers:
    nothing is retried. *)
Theorem loop_effects_are_bounded py_str v cfg net i n records t :
  let out := process_records py_str v cfg net i n records t in
  length (alias_requests (snd out))
  <= length (alias_requests t) + length records
  /\ length (written_urls (snd out))
     <= length (written_urls t) + 2 * length records
  /\ exists k,
       k + length (alias_requests t) <= length (alias_requests (snd out))
       /\ delays (snd out) = delays t ++ repeat 3%Z k.
Proof.
  cbn zeta.
  destruct (process_records_effects py_str v cfg net i n records t)
    as [news [He [Hall Hlen]]].
  rewrite (alias_requests_step _ _ _ He), (written_urls_step _ _ _ He),
    (delays_step _ _ _ He), !length_app.
  assert (H : length (alias_requests (concat news)) <= length news
              /\ length (written_urls (concat news)) <= 2 * length news
              /\ exists k, k <= length (alias_requests (concat news))
                           /\ delays (concat news) = repeat 3%Z k).
  { clear He Hlen. induction Hall as [|new news Hnew _ IH].
    - cbn. repeat split; try lia. exists 0. auto.
    - destruct IH as [IHa [IHw [k [Hk IHd]]]].
      destruct (record_effects_counts _ _ _ _ Hnew) as [Ha [Hw [k' [Hk' Hd]]]].
      cbn [concat length].
      rewrite alias_requests_app, written_urls_app, delays_app, !length_app.
      repeat split; try lia.
      exists (k' + k). split; [lia|]. now rewrite Hd, IHd, repeat_app. }
  destruct H as [Ha [Hw [k [Hk Hd]]]].
  repeat split; try lia.
  exists k. split; [lia | now rewrite Hd].
Qed.

(** X6. When the loop has run to its end, it has asked for exactly one alias
    per record that holds both required values and for none for the others,
    in the order of the batch, however each attempt ended. *)
Theorem one_alias_request_per_valid_record py_str v cfg net i n records t :
  let out := process_records py_str v cfg net i n records t in
  fst out = inr tt ->
  alias_requests (snd out)
  = alias_requests t ++ flat_map (alias_request_of py_str v cfg) records.
Proof.
  cbn zeta. revert i t. induction records as [|record rest IH]; intros i t Hend.
  - cbn. now rewrite app_nil_r.
  - rewrite process_records_cons in Hend |- *.
    assert (Hone :
      fst (process_record py_str v cfg net i n record t) = inr tt ->
      alias_requests (snd (process_record py_str v cfg net i n record t))
      = alias_requests t ++ alias_request_of py_str v cfg record).
    { clear. intros Hr.
      destruct record as [| | | | |d]; try discriminate Hr.
      destruct (dict_get "fields" d (PDict [])) as [| | | | |f] eqn:Hf;
        try (unfold process_record in Hr; cbn [get] in Hr; rewrite Hf in Hr;
             discriminate Hr).
      unfold alias_request_of. rewrite Hf.
      destruct (has_required v f) eqn:Hreq.
      - pose proof (process_valid_record py_str v cfg net i n d f t Hf Hreq) as H.
        cbn zeta in H. unfold faulted in H.
        repeat match type of H with
               | context [match ?x with inl _ => _ | inr _ => _ end] => destruct x
               end.
        all: destruct H as [_ He]; rewrite <- ?app_assoc in He; cbn [app] in He.
        all: rewrite (alias_requests_step _ _ _ He); reflexivity.
      - destruct (process_invalid_record py_str v cfg net i n d f t Hf Hreq)
          as [_ He].
        rewrite (alias_requests_step _ _ _ He). reflexivity. }
    destruct (process_record py_str v cfg net i n record t) as [[e|[]] t'];
      cbn [fst snd] in *; [discriminate|].
    rewrite (IH (S i) t' Hend), (Hone eq_refl), <- app_assoc. reflexivity.
Qed.

Lemma one_alias_request_per_valid_record_witness :
  let net := world (ok (batch [])) (down "Cannot connect to host") (failed 503 "busy") in
  let out := process_records str_atom UpdatePy cfg0 net 0 3
               [PDict record_a; PDict record_b; PDict record_c] [] in
  fst out = inr tt
  /\ alias_requests (snd out)
     = [tinyurl_request str_atom cfg0 (PStr "http://a") (PStr "x1");
        tinyurl_request str_atom cfg0 (PStr "http://c") (PStr "x3")].
Proof.
  cbn zeta. split; [reflexivity|].
  exact (one_alias_request_per_valid_record str_atom UpdatePy cfg0
           (world (ok (batch [])) (down "Cannot connect to host") (failed 503 "busy"))
           0 3 [PDict record_a; PDict record_b; PDict record_c] [] eq_refl).
Defined.

(** ** The whole run *)

(** With both credentials, [main] is the fetch, the count and the loop over
    the fetched items, after log lines only. *)
Lemma main_run py_str v cfg net t :
  env_truthy (AIRTABLE_API_KEY cfg) = true ->
  env_truthy (TINYURL_API_TOKEN cfg) = true ->
  exists t0,
    effects t0 = effects t
    /\ main py_str v cfg net t
       = match fetch_airtable_records v cfg net t0 with
         | (inl e, t1) => (inl e, t1)
         | (inr records, t1) =>
             match len records with
             | inl e => (inl e, t1)
             | inr n =>
                 let t2 := t1 ++ [Log INFO "Fetched {} records from Airtable"
                                    [PInt (Z.of_nat n)]] in
                 match iter records with
                 | inl e => (inl e, t2)
                 | inr items =>
                     match process_records py_str v cfg net 0 n items t2 with
                     | (inl e, t3) => (inl e, t3)
                     | (inr _, t3) => (inr tt, t3 ++ [Log INFO "Cron job completed" []])
                     end
                 end
             end
         end.
Proof.
  intros Hkey Htok.
  destruct (AIRTABLE_API_KEY cfg) as [key|] eqn:Ekey; [|discriminate].
  destruct (TINYURL_API_TOKEN cfg) as [tok|] eqn:Etok; [|discriminate].
  unfold main. rewrite Ekey, Etok, Hkey, Htok. cbn [negb].
  destruct v; cbn [verbose when].
  - exists (t ++ [Log INFO "Starting TinyURL cron job" []]).
    split; [now trace_simpl|].
    unfold logging_info, bind, emit, lift, ret.
    destruct (fetch_airtable_records _ _ _ _) as [[e|records] t1]; [reflexivity|].
    destruct (len records) as [e|n]; [reflexivity|].
    destruct (iter records) as [e|items]; [reflexivity|].
    cbn zeta.
    destruct (process_records _ _ _ _ _ _ _ _) as [[e|[]] t3]; reflexivity.
  - exists (((t ++ [Log INFO "Starting TinyURL cron job" []])
             ++ [Log INFO "AIRTABLE_API_KEY is set (length: {})"
                   [PInt (Z.of_nat (String.length key))]])
            ++ [Log INFO "TINYURL_API_TOKEN is set (length: {})"
                  [PInt (Z.of_nat (String.length tok))]]).
    split; [now trace_simpl|].
    unfold logging_info, bind, emit, lift, ret. cbn [env_val len].
    destruct (fetch_airtable_records _ _ _ _) as [[e|records] t1]; [reflexivity|].
    destruct (len records) as [e|n]; [reflexivity|].
    destruct (iter records) as [e|items]; [reflexivity|].
    cbn zeta.
    destruct (process_records _ _ _ _ _ _ _ _) as [[e|[]] t3]; reflexivity.
Qed.

Lemma main_stops_without_credentials py_str v cfg net t :
  env_truthy (AIRTABLE_API_KEY cfg) = false
  \/ env_truthy (TINYURL_API_TOKEN cfg) = false ->
  effects (snd (main py_str v cfg net t)) = effects t.
Proof.
  intros Hcred. unfold main, logging_info, logging_error, when.
  unfold bind at 1. cbn [emit].
  destruct (env_truthy (AIRTABLE_API_KEY cfg)) eqn:Hkey; cbn [negb].
  - destruct Hcred as [Hcred | Htok]; [discriminate|]. rewrite Htok. cbn [negb].
    destruct (AIRTABLE_API_KEY cfg) as [key|]; [|discriminate].
    destruct v; cbn; now trace_simpl.
  - cbn. now trace_simpl.
Qed.

(** X7. A run reads the store at most once and before anything else: its
    effects are none at all, or the GET of the table followed by nothing
    but what the loop may do (pacing delays of 3, alias creations for
    non-empty values, status writes of the four kinds), whatever the
    configuration and the network. *)
Theorem run_reads_once_then_reconciles py_str v cfg net t :
  exists new,
    effects (snd (main py_str v cfg net t)) = effects t ++ new
    /\ (new = []
        \/ exists rest,
             new = Call (fetch_request v cfg) :: rest
             /\ Forall (loop_effect py_str v cfg) rest).
Proof.
  destruct (env_truthy (AIRTABLE_API_KEY cfg) && env_truthy (TINYURL_API_TOKEN cfg))
    eqn:Hcred.
  - apply andb_prop in Hcred. destruct Hcred as [Hkey Htok].
    destruct (main_run py_str v cfg net t Hkey Htok) as [t0 [H0 ->]].
    pose proof (fetch_effects v cfg net t0) as Hf. rewrite H0 in Hf.
    assert (Hstop : exists new,
               effects t ++ [Call (fetch_request v cfg)] = effects t ++ new
               /\ (new = []
                   \/ exists rest, new = Call (fetch_request v cfg) :: rest
                                   /\ Forall (loop_effect py_str v cfg) rest)).
    { exists [Call (fetch_request v cfg)]. split; [reflexivity|].
      right. exists []. split; [reflexivity | constructor]. }
    destruct (fetch_airtable_records _ _ _ _) as [[e|records] t1];
      cbn [fst snd] in *; [now rewrite Hf|].
    destruct (len records) as [e|n]; cbn [snd]; [now rewrite Hf|].
    cbn zeta.
    destruct (iter records) as [e|items]; cbn [snd];
      [rewrite effects_log; now rewrite Hf|].
    destruct (process_records_effects py_str v cfg net 0 n items
                (t1 ++ [Log INFO "Fetched {} records from Airtable"
                          [PInt (Z.of_nat n)]]))
      as [news [He [Hall _]]].
    apply records_effects_allowed in Hall.
    rewrite effects_log, Hf, <- app_assoc in He. cbn [app] in He.
    exists (Call (fetch_request v cfg) :: concat news).
    split; [|right; exists (concat news); now split].
    destruct (process_records _ _ _ _ _ _ _ _) as [[e|[]] t3]; cbn [snd] in *;
      [exact He | now rewrite effects_log].
  - apply andb_false_iff in Hcred.
    exists []. rewrite app_nil_r. split; [|now left].
    now apply main_stops_without_credentials.
Qed.

Lemma process_records_history py_str v cfg net i n records t :
  fst (process_records py_str v cfg net i n records t)
  = fst (process_records py_str v cfg net i n records (effects t))
  /\ effects (snd (process_records py_str v cfg net i n records t))
     = effects (snd (process_records py_str v cfg net i n records (effects t))).
Proof.
  apply (sim_process_records py_str v cfg net i n i n records records eq_refl).
  now rewrite effects_idem.
Qed.

(** How [main] ends and what it did, from what the fetch returned. *)
Lemma main_after_fetch py_str v cfg net t records :
  env_truthy (AIRTABLE_API_KEY cfg) = true ->
  env_truthy (TINYURL_API_TOKEN cfg) = true ->
  fst (fetch_airtable_records v cfg net (effects t)) = inr records ->
  let read := effects t ++ [Call (fetch_request v cfg)] in
  let out := main py_str v cfg net t in
  match len records, iter records with
  | inr n, inr items =>
      let loop := process_records py_str v cfg net 0 n items read in
      fst out = fst loop /\ effects (snd out) = effects (snd loop)
  | inl e, _ => fst out = inl e /\ effects (snd out) = read
  | inr _, inl e => fst out = inl e /\ effects (snd out) = read
  end.
Proof.
  intros Hkey Htok Hfetch. cbn zeta.
  destruct (main_run py_str v cfg net t Hkey Htok) as [t0 [H0 ->]].
  pose proof (fetch_effects v cfg net t0) as Hf.
  pose proof (fetch_history v cfg net t0) as Hh.
  rewrite H0 in Hf, Hh. rewrite Hfetch in Hh.
  destruct (fetch_airtable_records _ _ _ t0) as [[e|records'] t1];
    cbn [fst snd] in *; [discriminate|].
  injection Hh as ->.
  destruct (len records) as [e|n]; [now split|].
  cbn zeta.
  destruct (iter records) as [e|items];
    [cbn [fst snd]; split; [reflexivity|]; now rewrite effects_log|].
  destruct (process_records_history py_str v cfg net 0 n items
              (t1 ++ [Log INFO "Fetched {} records from Airtable"
                        [PInt (Z.of_nat n)]])) as [Hr He].
  rewrite effects_log, Hf in Hr, He. rewrite <- Hr, <- He.
  destruct (process_records _ _ _ _ _ _ _ _) as [[e|[]] t3]; cbn [fst snd];
    split; try reflexivity. now rewrite effects_log.
Qed.

(** X8. With both credentials set, once the fetch has returned a list the
    run is the loop over that list, in its order, started right after the
    read: it ends as the loop ends and its effects are those of the loop. *)
Theorem run_is_fetch_then_loop py_str v cfg net t items :
  env_truthy (AIRTABLE_API_KEY cfg) = true ->
  env_truthy (TINYURL_API_TOKEN cfg) = true ->
  fst (fetch_airtable_records v cfg net (effects t)) = inr (PList items) ->
  let out := main py_str v cfg net t in
  let loop :=
    process_records py_str v cfg net 0 (length items) items
      (effects t ++ [Call (fetch_request v cfg)]) in
  fst out = fst loop /\ effects (snd out) = effects (snd loop).
Proof.
  intros Hkey Htok Hfetch. cbn zeta.
  exact (main_after_fetch py_str v cfg net t (PList items) Hkey Htok Hfetch).
Qed.

Lemma run_is_fetch_then_loop_witness :
  let net := world (ok (batch [PDict record_b; PDict record_a]))
               (failed 422 "Alias is not available") (ok PNone) in
  let out := main str_atom UpdatePy cfg0 net [] in
  fst (fetch_airtable_records UpdatePy cfg0 net [])
  = inr (PList [PDict record_b; PDict record_a])
  /\ fst out
     = fst (process_records str_atom UpdatePy cfg0 net 0 2
              [PDict record_b; PDict record_a] [Call (fetch_request UpdatePy cfg0)])
  /\ effects (snd out)
     = effects (snd (process_records str_atom UpdatePy cfg0 net 0 2
                       [PDict record_b; PDict record_a]
                       [Call (fetch_request UpdatePy cfg0)])).
Proof.
  cbn zeta. split; [reflexivity|].
  exact (run_is_fetch_then_loop str_atom UpdatePy cfg0
           (world (ok (batch [PDict record_b; PDict record_a]))
              (failed 422 "Alias is not available") (ok PNone))
           [] [PDict record_b; PDict record_a] eq_refl eq_refl eq_refl).
Defined.

(** X9. With both credentials set, when what the fetch returned under
    'records' is not a list, the run does nothing after the read.  A value
    without a length (null, a boolean, a number) raises a TypeError at the
    count; a non-empty string or mapping is iterated, and its first item,
    a string, raises an AttributeError; an empty string or mapping is an
    empty batch and the run ends normally. *)
Theorem records_not_a_list py_str v cfg net t records :
  env_truthy (AIRTABLE_API_KEY cfg) = true ->
  env_truthy (TINYURL_API_TOKEN cfg) = true ->
  fst (fetch_airtable_records v cfg net (effects t)) = inr records ->
  (forall items, records <> PList items) ->
  let out := main py_str v cfg net t in
  effects (snd out) = effects t ++ [Call (fetch_request v cfg)]
  /\ fst out
     = match records with
       | PStr EmptyString | PDict [] => inr tt
       | PStr _ | PDict _ =>
           inl (Exception "'str' object has no attribute 'get'")
       | _ =>
           inl (Exception ("object of type '" ++ type_name records
                           ++ "' has no len()")%string)
       end.
Proof.
  intros Hkey Htok Hfetch Hnl. cbn zeta.
  pose proof (main_after_fetch py_str v cfg net t records Hkey Htok Hfetch) as H.
  cbn zeta in H. revert H. generalize (main py_str v cfg net t) as out.
  intros out H.
  destruct records as [|b|z|s|l|d]; cbn [len iter] in H.
  - destruct H as [-> ->]. now split.
  - destruct H as [-> ->]. now split.
  - destruct H as [-> ->]. now split.
  - destruct s as [|c s]; cbn in H; destruct H as [-> ->]; trace_simpl; now split.
  - exfalso. now apply (Hnl l).
  - destruct d as [|[k x] d]; cbn in H; destruct H as [-> ->]; trace_simpl; now split.
Qed.

Lemma records_not_a_list_witness :
  let net := world (ok (PDict [("records", PNone)])) (ok PNone) (ok PNone) in
  fst (fetch_airtable_records UpdatePy cfg0 net []) = inr PNone
  /\ effects (snd (main str_atom UpdatePy cfg0 net [])) = [Call (fetch_request UpdatePy cfg0)]
  /\ fst (main str_atom UpdatePy cfg0 net [])
     = inl (Exception "object of type 'NoneType' has no len()").
Proof.
  cbn zeta. split; [reflexivity|].
  apply (records_not_a_list str_atom UpdatePy cfg0
           (world (ok (PDict [("records", PNone)])) (ok PNone) (ok PNone))
           [] PNone eq_refl eq_refl eq_refl).
  discriminate.
Defined.

(** X10. With both credentials set, when the store answers the read with
    status 200 and a mapping that has no 'records' key, or an empty list
    under it, the run is a no-op that ends normally: the read is its only
    effect, and its last two log lines report 0 records and the completion
    of the job. *)
Theorem empty_batch_is_a_no_op py_str v cfg net t r data :
  env_truthy (AIRTABLE_API_KEY cfg) = true ->
  env_truthy (TINYURL_API_TOKEN cfg) = true ->
  net (effects t) (fetch_request v cfg) = inr r ->
  status r = 200%Z ->
  json r = inr (PDict data) ->
  dict_lookup "records" data = None \/ dict_lookup "records" data = Some (PList []) ->
  let out := main py_str v cfg net t in
  fst out = inr tt
  /\ effects (snd out) = effects t ++ [Call (fetch_request v cfg)]
  /\ exists before,
       snd out
       = before ++ [Log INFO "Fetched {} records from Airtable" [PInt 0];
                    Log INFO "Cron job completed" []].
Proof.
  intros Hkey Htok Hnet Hs Hjson Hrecords. cbn zeta.
  destruct (main_run py_str v cfg net t Hkey Htok) as [t0 [H0 ->]].
  pose proof (fetch_effects v cfg net t0) as Hf.
  pose proof (fetch_returns_on_200 v cfg net t0 r) as Hr.
  rewrite H0 in Hf, Hr. specialize (Hr Hnet Hs). rewrite Hjson in Hr.
  assert (Hget : get (PDict data) "records" (PList []) = inr (PList [])).
  { unfold get, dict_get. now destruct Hrecords as [-> | ->]. }
  rewrite Hget in Hr.
  destruct (fetch_airtable_records _ _ _ t0) as [fetched t1]; cbn [fst snd] in *.
  subst fetched. cbn -[effects].
  repeat split.
  - now rewrite !effects_log.
  - exists t1. now rewrite <- app_assoc.
Qed.

Lemma empty_batch_is_a_no_op_witness :
  let net := world (ok (PDict [("offset", PStr "itr1")])) (ok PNone) (ok PNone) in
  let out := main str_atom UpdateTinyurl cfg0 net [] in
  env_truthy (AIRTABLE_API_KEY cfg0) = true
  /\ fst out = inr tt
  /\ effects (snd out) = [Call (fetch_request UpdateTinyurl cfg0)].
Proof.
  cbn zeta. split; [reflexivity|].
  destruct (empty_batch_is_a_no_op str_atom UpdateTinyurl cfg0
              (world (ok (PDict [("offset", PStr "itr1")])) (ok PNone) (ok PNone))
              [] _ [("offset", PStr "itr1")]
              eq_refl eq_refl eq_refl eq_refl eq_refl (or_introl eq_refl))
    as [Hr [He _]].
  split; assumption.
Defined.

(** ** What a failed read leaves in the log *)

(** X11. On a read refused with a status other than 200, update.py logs
    the status and nothing else, while update-tinyurl/update.py, once it
    has the text of the response, also logs the body, the URL, the request
    parameters and the request headers: the bearer API key ends up in its
    error log. *)
Theorem fetch_failure_log v cfg net t r body :
  net (effects t) (fetch_request v cfg) = inr r ->
  status r <> 200%Z ->
  text r = inr body ->
  let logged := snd (fetch_airtable_records v cfg net t) in
  match v with
  | UpdatePy =>
      logged
      = t ++ [Call (fetch_request v cfg);
              Log ERROR "Failed to fetch Airtable records: {}" [PInt (status r)]]
  | UpdateTinyurl =>
      exists before,
        logged
        = before
          ++ [Call (fetch_request v cfg);
              Log ERROR "Failed to fetch Airtable records: {}" [PInt (status r)];
              Log ERROR "Response body: {}" [PStr body];
              Log ERROR "Request URL: {}" [PStr (airtable_url cfg)];
              Log ERROR "Request headers: {}"
                [PDict [("Authorization",
                         PStr ("Bearer " ++ fmt_env (AIRTABLE_API_KEY cfg))%string);
                        ("Content-Type", PStr "application/json")]];
              Log ERROR "Request params: {}" [fetch_params v cfg]]
  end.
Proof.
  intros Hnet Hs Hbody. apply Z.eqb_neq in Hs. cbn zeta.
  unfold fetch_airtable_records, when, logging_info, logging_error,
    bind, emit, lift, ret.
  cbn [session_request].
  destruct v; cbn [verbose].
  - rewrite Hnet. cbn [fst snd]. rewrite Hs. cbn [fst snd].
    now rewrite <- app_assoc.
  - rewrite !effects_log, Hnet. cbn [fst snd]. rewrite Hs, Hbody. cbn [fst snd].
    exists (t ++ [Log INFO "Fetching from URL: {}" [PStr (airtable_url cfg)];
                  Log INFO "Using base ID: {}" [PStr (AIRTABLE_BASE_ID cfg)];
                  Log INFO "Using table: {}" [PStr (AIRTABLE_TABLE_NAME cfg)];
                  Log INFO "Using view: {}" [PStr (AIRTABLE_VIEW_NAME cfg)]]).
    rewrite <- !app_assoc. reflexivity.
Qed.

Lemma fetch_failure_log_witness :
  let net := world (failed 401 "AUTHENTICATION_REQUIRED") (ok PNone) (ok PNone) in
  text {| status := 401;
          json := inl (Exception "Attempt to decode JSON with unexpected mimetype");
          text := inr "AUTHENTICATION_REQUIRED"%string |}
  = inr "AUTHENTICATION_REQUIRED"%string
  /\ snd (fetch_airtable_records UpdatePy cfg0 net [])
     = [Call (fetch_request UpdatePy cfg0);
        Log ERROR "Failed to fetch Airtable records: {}" [PInt 401]].
Proof.
  cbn zeta. split; [reflexivity|].
  apply (fetch_failure_log UpdatePy cfg0
           (world (failed 401 "AUTHENTICATION_REQUIRED") (ok PNone) (ok PNone)) []
           {| status := 401;
              json := inl (Exception "Attempt to decode JSON with unexpected mimetype");
              text := inr "AUTHENTICATION_REQUIRED"%string |}
           "AUTHENTICATION_REQUIRED"%string).
  - reflexivity.
  - cbn. discriminate.
  - reflexivity.
Defined.

(** ** Splitting a batch *)


(** ** Every record of a completed batch has its status *)

(** X13. When the loop has run to its end, every record of the batch has
    had its status written, to its own entry and in the order of the batch:
    once, or twice when the first write raised inside the try and the
    fault report followed. *)
Theorem completed_batch_wrote_every_status py_str v cfg net i n records t :
  let out := process_records py_str v cfg net i n records t in
  fst out = inr tt ->
  exists counts,
    length counts = length records
    /\ Forall (fun k => k = 1 \/ k = 2) counts
    /\ written_urls (snd out)
       = written_urls t
         ++ concat (map (fun rk => repeat (record_url py_str cfg (fst rk)) (snd rk))
                        (combine records counts)).
Proof.
  cbn zeta. revert i t. induction records as [|record rest IH]; intros i t Hend.
  - exists []. cbn. rewrite app_nil_r. auto.
  - rewrite process_records_cons in Hend |- *.
    assert (Hone :
      fst (process_record py_str v cfg net i n record t) = inr tt ->
      exists k, (k = 1 \/ k = 2)
        /\ written_urls (snd (process_record py_str v cfg net i n record t))
           = written_urls t ++ repeat (record_url py_str cfg record) k).
    { clear. intros Hr.
      destruct record as [| | | | |d]; try discriminate Hr.
      destruct (dict_get "fields" d (PDict [])) as [| | | | |f] eqn:Hf;
        try (unfold process_record in Hr; cbn [get] in Hr; rewrite Hf in Hr;
             discriminate Hr).
      destruct (has_required v f) eqn:Hreq.
      - pose proof (process_valid_record py_str v cfg net i n d f t Hf Hreq) as H.
        cbn zeta in H. unfold faulted in H.
        destruct (fst (create_tinyurl _ _ _ _ _ _ _)) as [e|success].
        + destruct H as [_ He]. rewrite <- app_assoc in He. cbn [app] in He.
          exists 1. split; [now left|].
          rewrite (written_urls_step _ _ _ He). reflexivity.
        + destruct (fst (update_airtable_script_field _ _ _ _ _ _ _)) as [e|b].
          * destruct H as [_ He]. rewrite <- app_assoc in He. cbn [app] in He.
            exists 2. split; [now right|].
            rewrite (written_urls_step _ _ _ He). reflexivity.
          * destruct H as [_ He].
            exists 1. split; [now left|].
            rewrite (written_urls_step _ _ _ He). reflexivity.
      - destruct (process_invalid_record py_str v cfg net i n d f t Hf Hreq)
          as [_ He].
        exists 1. split; [now left|].
        rewrite (written_urls_step _ _ _ He). reflexivity. }
    destruct (process_record py_str v cfg net i n record t) as [[e|[]] t'];
      cbn [fst snd] in *; [discriminate|].
    destruct (Hone eq_refl) as [k [Hk Hw]].
    destruct (IH (S i) t' Hend) as [counts [Hlen [Hall Hws]]].
    exists (k :: counts). cbn [length combine map concat fst snd].
    split; [now rewrite Hlen|]. split; [now constructor|].
    now rewrite Hws, Hw, <- app_assoc.
Qed.

Lemma completed_batch_wrote_every_status_witness :
  let net := world (ok (batch [])) (ok PNone) (failed 503 "busy") in
  let out := process_records str_atom UpdatePy cfg0 net 0 2
               [PDict record_b; PDict record_a] [] in
  fst out = inr tt
  /\ exists counts,
       length counts = 2
       /\ Forall (fun k => k = 1 \/ k = 2) counts
       /\ written_urls (snd out)
          = concat (map (fun rk => repeat (record_url str_atom cfg0 (fst rk)) (snd rk))
                        (combine [PDict record_b; PDict record_a] counts)).
Proof.
  cbn zeta. split; [reflexivity|].
  exact (completed_batch_wrote_every_status str_atom UpdatePy cfg0
           (world (ok (batch [])) (ok PNone) (failed 503 "busy"))
           0 2 [PDict record_b; PDict record_a] [] eq_refl).
Defined.
